(** * Firemyna: functions discovery, index generation, module resolution and
    the development supervisor

  A shallow embedding of [functions/index.ts] (discovery, classification,
  inclusion policy, index text, watch subscription, [buildFile]),
  [esbuild/resolve.ts] ([resolvePlugin]) and [cli/commands/dev/index.ts]
  (child supervision and the watch-message consumer).

  Strings are sequences of 8-bit code units.  Node's [path] module is the
  POSIX flavour.  Promises are modelled by their settled outcome. *)

From Stdlib Require Import Ascii String.
From stdpp Require Import base option list gmap strings.

Local Open Scope string_scope.
Local Open Scope list_scope.

(** ** Strings *)

Module Str.

(** JavaScript truthiness of a string: the empty string is falsy. *)
Definition truthy (s : string) : bool :=
  match s with EmptyString => false | String _ _ => true end.

Fixpoint all (p : ascii -> bool) (s : string) : bool :=
  match s with
  | EmptyString => true
  | String c s' => p c && all p s'
  end.

Definition is_slash (c : ascii) : bool := Ascii.eqb c "/".
Definition is_dot (c : ascii) : bool := Ascii.eqb c ".".

Definition no_slash (s : string) : bool := all (fun c => negb (is_slash c)) s.
Definition no_dot (s : string) : bool := all (fun c => negb (is_dot c)) s.

(** [String.prototype.startsWith] *)
Definition startsWith (s p : string) : bool := String.prefix p s.

(** [String.prototype.includes]: [p] occurs somewhere in [s]. *)
Fixpoint includes (s p : string) : bool :=
  String.prefix p s ||
  match s with
  | EmptyString => false
  | String _ s' => includes s' p
  end.

(** [Array.prototype.join] on an array of strings. *)
Fixpoint join (sep : string) (l : list string) : string :=
  match l with
  | [] => ""
  | [x] => x
  | x :: rest => x +:+ sep +:+ join sep rest
  end.

(** [String.prototype.split] with a one-character separator. *)
Fixpoint split (sep : ascii) (s : string) : list string :=
  match s with
  | EmptyString => [""]
  | String c s' =>
      if Ascii.eqb c sep then "" :: split sep s'
      else match split sep s' with
           | h :: t => String c h :: t
           | [] => [String c ""]
           end
  end.

(** Cut [s] at the last occurrence of [sep]: the text before it and the
    text after it; [None] when [sep] does not occur. *)
Fixpoint rsplit (sep : ascii) (s : string) : option (string * string) :=
  match s with
  | EmptyString => None
  | String c s' =>
      match rsplit sep s' with
      | Some (a, b) => Some (String c a, b)
      | None => if Ascii.eqb c sep then Some ("", s') else None
      end
  end.

(** Remove every trailing occurrence of [sep]. *)
Fixpoint rstrip (sep : ascii) (s : string) : string :=
  match s with
  | EmptyString => ""
  | String c s' =>
      match rstrip sep s' with
      | EmptyString => if Ascii.eqb c sep then "" else String c ""
      | r => String c r
      end
  end.

Definition last_is (sep : ascii) (s : string) : bool :=
  match rsplit sep s with
  | Some (_, "") => true
  | _ => false
  end.

End Str.

(** ** Regular expressions

  The two patterns of the source are anchored at both ends and carry no
  flag, so [RegExp.prototype.test] is a match of the whole string. *)

Module RegExp.

Inductive regex : Type :=
| Void
| Eps
| Class (p : ascii -> bool)
| Seq (r1 r2 : regex)
| Alt (r1 r2 : regex)
| Star (r : regex).

(** Line terminators among the 8-bit code units: LF and CR. *)
Definition is_line_terminator (c : ascii) : bool :=
  Ascii.eqb c "010" || Ascii.eqb c "013".

Definition Chr (c : ascii) : regex := Class (Ascii.eqb c).
(** The pattern [.] *)
Definition Dot : regex := Class (fun c => negb (is_line_terminator c)).
(** [r+] *)
Definition Plus (r : regex) : regex := Seq r (Star r).
(** [r?] *)
Definition Opt (r : regex) : regex := Alt r Eps.

Fixpoint Lit (s : string) : regex :=
  match s with
  | EmptyString => Eps
  | String c s' => Seq (Chr c) (Lit s')
  end.

Fixpoint nullable (r : regex) : bool :=
  match r with
  | Void => false
  | Eps => true
  | Class _ => false
  | Seq a b => nullable a && nullable b
  | Alt a b => nullable a || nullable b
  | Star _ => true
  end.

Fixpoint deriv (c : ascii) (r : regex) : regex :=
  match r with
  | Void => Void
  | Eps => Void
  | Class p => if p c then Eps else Void
  | Seq a b =>
      if nullable a then Alt (Seq (deriv c a) b) (deriv c b)
      else Seq (deriv c a) b
  | Alt a b => Alt (deriv c a) (deriv c b)
  | Star a => Seq (deriv c a) (Star a)
  end.

(** [/^r$/.test(s)] *)
Fixpoint test (r : regex) (s : string) : bool :=
  match s with
  | EmptyString => nullable r
  | String c s' => test (deriv c r) s'
  end.

(** The language of a pattern. *)
Inductive matches : regex -> string -> Prop :=
| MEps : matches Eps ""
| MClass p c : p c = true -> matches (Class p) (String c "")
| MSeq a b s1 s2 : matches a s1 -> matches b s2 -> matches (Seq a b) (s1 +:+ s2)
| MAltL a b s : matches a s -> matches (Alt a b) s
| MAltR a b s : matches b s -> matches (Alt a b) s
| MStar0 a : matches (Star a) ""
| MStarS a c s1 s2 :
    matches a (String c s1) -> matches (Star a) s2 ->
    matches (Star a) (String c s1 +:+ s2).

End RegExp.

(** ** Node's [path] module (POSIX) *)

Module Path.

Record ParsedPath : Type := mkParsedPath {
  root : string;
  dir : string;
  base : string;
  ext : string;
  name : string;
}.

Definition isAbsolute (p : string) : bool :=
  match p with
  | String c _ => Str.is_slash c
  | EmptyString => false
  end.

(** One segment of [normalizeString]; [acc] holds the segments kept so far,
    the last one first. *)
Definition normalizeStep (allowAboveRoot : bool) (acc : list string)
    (seg : string) : list string :=
  if String.eqb seg "" || String.eqb seg "." then acc
  else if String.eqb seg ".." then
    match acc with
    | last :: rest =>
        if String.eqb last ".." then
          (if allowAboveRoot then ".." :: acc else acc)
        else rest
    | [] => if allowAboveRoot then [".."] else []
    end
  else seg :: acc.

(** [normalizeString(path, allowAboveRoot, "/", isPosixPathSeparator)]:
    resolves [.] and [..] and collapses separators. *)
Definition normalizeString (path : string) (allowAboveRoot : bool) : string :=
  Str.join "/"
    (rev (fold_left (normalizeStep allowAboveRoot) (Str.split "/" path) [])).

(** [path.normalize] *)
Definition normalize (path : string) : string :=
  if negb (Str.truthy path) then "."
  else
    let isAbs := isAbsolute path in
    let trailingSeparator := Str.last_is "/" path in
    let p := normalizeString path (negb isAbs) in
    if negb (Str.truthy p) then
      (if isAbs then "/" else if trailingSeparator then "./" else ".")
    else
      let p := if trailingSeparator then p +:+ "/" else p in
      if isAbs then "/" +:+ p else p.

(** The right-to-left loop of [path.resolve]; [args] is given last
    argument first and ends with the process working directory. *)
Fixpoint resolveLoop (args : list string) (resolvedPath : string)
    : string * bool :=
  match args with
  | [] => (resolvedPath, false)
  | p :: rest =>
      if negb (Str.truthy p) then resolveLoop rest resolvedPath
      else
        let resolvedPath := p +:+ "/" +:+ resolvedPath in
        if isAbsolute p then (resolvedPath, true)
        else resolveLoop rest resolvedPath
  end.

(** [path.resolve(...args)] in a process whose working directory is
    [pcwd]. *)
Definition resolve (pcwd : string) (args : list string) : string :=
  let '(resolvedPath, resolvedAbsolute) := resolveLoop (rev (pcwd :: args)) "" in
  let resolvedPath := normalizeString resolvedPath (negb resolvedAbsolute) in
  if resolvedAbsolute then "/" +:+ resolvedPath
  else if Str.truthy resolvedPath then resolvedPath else ".".

(** The segments of a resolved path below the root directory. *)
Definition segments (resolved : string) : list string :=
  filter (fun s => s ≠ "") (Str.split "/" resolved).

Fixpoint dropCommon (from to : list string) : list string * list string :=
  match from, to with
  | f :: from', t :: to' =>
      if String.eqb f t then dropCommon from' to' else (from, to)
  | _, _ => (from, to)
  end.

(** [path.relative(from, to)] *)
Definition relative (pcwd : string) (from to : string) : string :=
  if String.eqb from to then ""
  else
    let from := resolve pcwd [from] in
    let to := resolve pcwd [to] in
    if String.eqb from to then ""
    else
      let '(up, down) := dropCommon (segments from) (segments to) in
      Str.join "/" (map (fun _ => "..") up ++ down).

(** The name and extension of a base name: the extension starts at the last
    dot, unless that dot opens the base name or the base name is [..]. *)
Definition splitExt (base : string) : string * string :=
  match Str.rsplit "." base with
  | None => (base, "")
  | Some (EmptyString, _) => (base, "")
  | Some (stem, e) =>
      if String.eqb base ".." then (base, "") else (stem, "." +:+ e)
  end.

(** [path.parse] *)
Definition parse (path : string) : ParsedPath :=
  if negb (Str.truthy path) then mkParsedPath "" "" "" "" ""
  else
    let isAbs := isAbsolute path in
    let rt := if isAbs then "/" else "" in
    let body := match path with
                | String _ rest => if isAbs then rest else path
                | EmptyString => path
                end in
    let trimmed := Str.rstrip "/" body in
    let '(d, b) := match Str.rsplit "/" trimmed with
                   | Some (d, b) => (rt +:+ d, b)
                   | None => (rt, trimmed)
                   end in
    let '(n, e) := splitExt b in
    mkParsedPath rt d b e n.

(** [path.basename(path)] and [path.extname(path)] agree with the [base]
    and [ext] fields of [path.parse]. *)
Definition basename (path : string) : string := base (parse path).
Definition extname (path : string) : string := ext (parse path).

End Path.

(** ** Promises

    A promise is modelled by the outcome it settles with. *)

Inductive error : Type :=
| FsError (syscall path : string)
| Error (message : string).

Inductive promise (A : Type) : Type :=
| Fulfilled (a : A)
| Rejected (e : error).

Arguments Fulfilled {A} a.
Arguments Rejected {A} e.

(** [await p] followed by the rest of an async function. *)
Definition await {A B : Type} (p : promise A) (k : A -> promise B) : promise B :=
  match p with
  | Fulfilled a => k a
  | Rejected e => Rejected e
  end.

Notation "'await!' x ':=' p 'in' k" := (await p (fun x => k))
  (at level 10, x name, p at level 100, k at level 200).

Definition isRejected {A : Type} (p : promise A) : bool :=
  match p with Rejected _ => true | Fulfilled _ => false end.

(** [Promise.all]: fulfilled with every value when every promise fulfils,
    rejected when one rejects.  Which rejection wins is decided by timing;
    the model reports the one of the earliest array element. *)
Fixpoint Promise_all {A : Type} (ps : list (promise A)) : promise (list A) :=
  match ps with
  | [] => Fulfilled []
  | p :: ps' =>
      match p with
      | Rejected e => Rejected e
      | Fulfilled a =>
          match Promise_all ps' with
          | Rejected e => Rejected e
          | Fulfilled l => Fulfilled (a :: l)
          end
      end
  end.

(** ** The host: process working directory and filesystem *)

Record Host : Type := mkHost {
  (** [process.cwd()] *)
  process_cwd : string;
  (** [fs/promises.readdir(path)]: the entry names *)
  readdir : string -> promise (list string);
  (** [(await fs/promises.stat(path)).isDirectory()] *)
  stat_isDirectory : string -> promise bool;
}.

(** ** functions/index.ts *)

(** A pattern of [functionsIgnorePaths], by its [test] method (a pattern
    without the g or y flag, whose [test] depends on the text alone). *)
Definition IgnorePattern : Type := string -> bool.

(** Modelled from the spec: the resolved configuration ([FiremynaConfig],
    declared in [config]), with the fields the sources read: target runtime
    version, optional init-module path, ignore-pattern list, optional
    function-name allow-list. *)
Record FiremynaConfig : Type := mkConfig {
  node : string;
  functionsInitPath : option string;
  functionsIgnorePaths : option (list IgnorePattern);
  onlyFunctions : option (list string);
}.

(** Modelled from the spec: the resolved build configuration
    ([FiremynaBuildConfig], declared in [build]): working directory,
    configuration, source and output directories of the functions, and the
    server-rendering export requirement flag. *)
Record FiremynaBuildConfig : Type := mkBuildConfig {
  cwd : string;
  config : FiremynaConfig;
  paths_functions_src : string;
  paths_functions_build : string;
  renderer : bool;
}.

(** [FiremynaFunction] *)
Record FiremynaFunction : Type := mkFunction {
  (** The path relative to the workspace root *)
  fn_path : string;
  (** The function name *)
  fn_name : string;
}.

(** Truthiness of an optional string ([undefined] and the empty string are
    falsy). *)
Definition truthyPath (p : option string) : bool :=
  match p with
  | Some s => Str.truthy s
  | None => false
  end.

Definition dquote : string := String "034" EmptyString.
Definition newline : string := String "010" EmptyString.

Definition exportLine (fn : FiremynaFunction) : string :=
  "export { default as " +:+ fn_name fn +:+ " } from " +:+
  dquote +:+ "./" +:+ fn_name fn +:+ ".cjs" +:+ dquote +:+ ";".

Definition importInitLine : string :=
  "import " +:+ dquote +:+ "./init.cjs" +:+ dquote +:+ ";".

Definition exportRendererLine : string :=
  "export { default as renderer } from " +:+ dquote +:+ "./renderer" +:+
  dquote +:+ ";".

Definition stringifyFunctionsIndex (list : list FiremynaFunction)
    (buildConfig : FiremynaBuildConfig) : string :=
  Str.join newline
    (((if truthyPath (functionsInitPath (config buildConfig))
       then [importInitLine] else [])
      ++ map exportLine list)
     ++ (if renderer buildConfig then [exportRendererLine] else [])).

(** [/[tj]/] *)
Definition tj (c : ascii) : bool := Ascii.eqb c "t" || Ascii.eqb c "j".

(** The index file regexp: [/^index\.[tj]sx?$/] *)
Definition indexRegExp : RegExp.regex :=
  RegExp.Seq (RegExp.Lit "index")
    (RegExp.Seq (RegExp.Chr ".")
       (RegExp.Seq (RegExp.Class tj)
          (RegExp.Seq (RegExp.Chr "s") (RegExp.Opt (RegExp.Chr "x"))))).

(** The function name regexp: [/^.+\.[tj]sx?$/] *)
Definition fnRegExp : RegExp.regex :=
  RegExp.Seq (RegExp.Plus RegExp.Dot)
    (RegExp.Seq (RegExp.Chr ".")
       (RegExp.Seq (RegExp.Class tj)
          (RegExp.Seq (RegExp.Chr "s") (RegExp.Opt (RegExp.Chr "x"))))).

Definition isInitPath (functionsInitPath : option string) (path : string)
    : bool :=
  match functionsInitPath with
  | Some init =>
      Str.truthy init &&
      String.eqb (Path.normalize path) (Path.normalize init)
  | None => false
  end.

Definition includedFunction (buildConfig : FiremynaBuildConfig)
    (fn : FiremynaFunction) : bool :=
  let c := config buildConfig in
  negb (isInitPath (functionsInitPath c) (fn_path fn)) &&
  negb (match functionsIgnorePaths c with
        | Some patterns =>
            match List.find (fun regex => regex (fn_path fn)) patterns with
            | Some _ => true
            | None => false
            end
        | None => false
        end) &&
  (match onlyFunctions c with
   | None => true
   | Some only => existsb (String.eqb (fn_name fn)) only
   end).

Definition parseFunction (h : Host) (buildConfig : FiremynaBuildConfig)
    (functionPath : string) : option FiremynaFunction :=
  let pcwd := process_cwd h in
  let path := Path.relative pcwd pcwd functionPath in
  let relativePath :=
    Path.relative pcwd
      (Path.resolve pcwd [cwd buildConfig; paths_functions_src buildConfig])
      functionPath in
  let parsedPath := Path.parse relativePath in
  if Str.truthy (Path.dir parsedPath) then
    let nested := Str.truthy (Path.dir (Path.parse (Path.dir parsedPath))) in
    if negb nested && RegExp.test indexRegExp (Path.base parsedPath) then
      let name := Path.dir parsedPath in
      Some (mkFunction path name)
    else None
  else if RegExp.test fnRegExp (Path.base parsedPath) then
    let name := Path.name parsedPath in
    Some (mkFunction path name)
  else None.

Definition findFunctionPath (h : Host) (cwd : string) (path : string)
    : promise (option string) :=
  await! isDirectory := stat_isDirectory h path in
  if (isDirectory : bool) then
    await! files := readdir h path in
    match List.find (RegExp.test indexRegExp) files with
    | None => Fulfilled None
    | Some indexFile =>
        Fulfilled
          (Some (Path.relative (process_cwd h) cwd
                   (Path.resolve (process_cwd h) [path; indexFile])))
    end
  else if RegExp.test fnRegExp path then
    Fulfilled (Some (Path.relative (process_cwd h) cwd path))
  else Fulfilled None.

(** [sweep] of js-fns: drops the [undefined] elements. *)
Definition sweep {A : Type} (l : list (option A)) : list A := omap id l.

(** The async callback [listFunctions] maps over the directory listing. *)
Definition listFunctionsItem (h : Host) (buildConfig : FiremynaBuildConfig)
    (itemPath : string) : promise (option FiremynaFunction) :=
  let fullPath :=
    Path.resolve (process_cwd h)
      [cwd buildConfig; paths_functions_src buildConfig; itemPath] in
  await! path := findFunctionPath h (cwd buildConfig) fullPath in
  match path with
  | None => Fulfilled None
  | Some path =>
      if negb (Str.truthy path) then Fulfilled None
      else
        let name := Path.name (Path.parse itemPath) in
        let fn := mkFunction path name in
        if includedFunction buildConfig fn then Fulfilled (Some fn)
        else Fulfilled None
  end.

Definition listFunctions (h : Host) (buildConfig : FiremynaBuildConfig)
    : promise (list FiremynaFunction) :=
  await! dir := readdir h
           (Path.resolve (process_cwd h)
              [cwd buildConfig; paths_functions_src buildConfig]) in
  await! items := Promise_all (map (listFunctionsItem h buildConfig) dir) in
  Fulfilled (sweep items).

(** *** The watch subscription *)

(** The [event] field of the function and init messages. *)
Inductive WatchEvent : Type := add | change | unlink.

(** The events chokidar reports to an [all] listener. *)
Inductive ChokidarEvent : Type :=
| chokidar_add
| chokidar_addDir
| chokidar_change
| chokidar_unlink
| chokidar_unlinkDir.

Inductive FiremynaWatchMessage : Type :=
| MessageInitial (functions : list FiremynaFunction)
| MessageFunction (event : WatchEvent) (function : FiremynaFunction)
| MessageInit (event : WatchEvent).

(** The listener [watchListFunction] installs on [all]: the messages one
    notification makes it pass to the callback. *)
Definition onAll (h : Host) (buildConfig : FiremynaBuildConfig)
    (notification : ChokidarEvent * string) : list FiremynaWatchMessage :=
  let '(event, path) := notification in
  let dispatch (event : WatchEvent) :=
    if isInitPath (functionsInitPath (config buildConfig)) path then
      [MessageInit event]
    else
      match parseFunction h buildConfig path with
      | None => []
      | Some fn =>
          if negb (includedFunction buildConfig fn) then []
          else [MessageFunction event fn]
      end in
  match event with
  | chokidar_add => dispatch add
  | chokidar_change => dispatch change
  | chokidar_unlink => dispatch unlink
  | chokidar_addDir | chokidar_unlinkDir => []
  end.

(** [watchListFunction] run against the notifications the watcher reports
    during its life: the outcome of the returned promise and the messages
    passed to the callback, in delivery order.  The watcher is created after
    the initial message and ignores the initial scan. *)
Definition watchListFunction (h : Host) (buildConfig : FiremynaBuildConfig)
    (notifications : list (ChokidarEvent * string))
    : promise unit * list FiremynaWatchMessage :=
  match listFunctions h buildConfig with
  | Rejected e => (Rejected e, [])
  | Fulfilled functions =>
      (Fulfilled tt,
       MessageInitial functions
         :: concat (map (onAll h buildConfig) notifications))
  end.

Definition isInitial (m : FiremynaWatchMessage) : bool :=
  match m with MessageInitial _ => true | _ => false end.

(** ** esbuild/resolve.ts *)

Module Resolve.

Record OnResolveArgs : Type := mkArgs {
  resolveDir : string;
  path : string;
}.

Record OnResolveResult : Type := mkResult {
  result_path : string;
  external : bool;
}.

(** What enhanced-resolve passes to the callback of [resolver.resolve]:
    an error or none, and the resolved path or a falsy value. *)
Record ResolverAnswer : Type := mkAnswer {
  err : option error;
  resolved : option string;
}.

(** The resolver built by [ResolverFactory.createResolver], by the answer it
    gives for a resolution directory and a specifier. *)
Definition Resolver : Type := string -> string -> ResolverAnswer.

Definition cannotResolve (path resolveDir : string) : error :=
  Error ("Cannot resolve " +:+ path +:+ " at " +:+ resolveDir).

(** The [onResolve] callback of [resolvePlugin], for the [builtinModules]
    of the running Node. *)
Definition onResolve (builtinModules : list string) (resolver : Resolver)
    (args : OnResolveArgs) : promise OnResolveResult :=
  if existsb (fun module => Str.startsWith (path args) module) builtinModules
  then Fulfilled (mkResult (path args) true)
  else
    let answer := resolver (resolveDir args) (path args) in
    match err answer with
    | Some e => Rejected e
    | None =>
        if negb (truthyPath (resolved answer)) then
          Rejected (cannotResolve (path args) (resolveDir args))
        else
          match resolved answer with
          | Some r => Fulfilled (mkResult r (Str.includes r "node_modules"))
          | None => Rejected (cannotResolve (path args) (resolveDir args))
          end
    end.

End Resolve.

(** *** Building one file with esbuild *)

Record OutputFile : Type := mkOutputFile {
  of_path : string;
  of_text : string;
}.

(** The touched-files manifest of a build. *)
Definition Metafile : Type := list string.

(** The output files on disk, by path. *)
Abbreviation Disk := (gmap string string).

Record StdinOptions : Type := mkStdin {
  loader : string;
  contents : string;
  sourcefile : string;
  stdin_resolveDir : string;
}.

(** The options [buildFile] passes to esbuild's [build] (the plugin list
    holds [resolvePlugin], modelled in [Resolve]). *)
Record BuildOptions : Type := mkBuildOptions {
  opt_bundle : bool;
  platform : string;
  target : string;
  sourcemap : string;
  format : string;
  outfile : string;
  entryPoints : option (list string);
  stdin : option StdinOptions;
  allowOverwrite : bool;
  write : bool;
  opt_incremental : bool;
  opt_metafile : bool;
}.

(** What esbuild's [build] resolves with.  [rebuild] is the incremental
    handle: calling it runs the same options again. *)
Record BuildResult : Type := mkBuildResult {
  outputFiles : option (list OutputFile);
  metafile : option Metafile;
  rebuild : option BuildOptions;
}.

(** The bundler's own compilation of the inputs found on disk: the output
    buffers and the manifest, or the diagnostics. *)
Definition Compiler : Type :=
  BuildOptions -> Disk -> promise (list OutputFile * Metafile).

Definition writeFiles (files : list OutputFile) (disk : Disk) : Disk :=
  fold_left (fun d f => <[of_path f := of_text f]> d) files disk.

(** esbuild's [build(options)]: with [write: false] the outputs are handed
    back in memory and the disk is left alone; a failed build writes
    nothing. *)
Definition esbuild_build (compile : Compiler) (options : BuildOptions)
    (disk : Disk) : promise BuildResult * Disk :=
  match compile options disk with
  | Rejected e => (Rejected e, disk)
  | Fulfilled (outs, meta) =>
      (Fulfilled
         (mkBuildResult
            (if write options then None else Some outs)
            (if opt_metafile options then Some meta else None)
            (if opt_incremental options then Some options else None)),
       if write options then writeFiles outs disk else disk)
  end.

Inductive BuildFileInput : Type :=
| InputEntry (path : string) (sourceFile : option string)
| InputContents (contents : string) (sourceFile : option string).

Record BuildFileProps : Type := mkProps {
  file : string;
  input : BuildFileInput;
  resolvePath : string;
  bundle : bool;
  buildConfig : FiremynaBuildConfig;
  incremental : bool;
}.

Definition sourceFileLoader (sourceFile : string) : string :=
  let ext := Path.extname sourceFile in
  if String.eqb ext ".ts" then "ts"
  else if String.eqb ext ".tsx" then "tsx"
  else if String.eqb ext ".jsx" then "jsx"
  else "js".

Definition getBuildFunctionsFilePath (h : Host)
    (buildConfig : FiremynaBuildConfig) (file : string) : string :=
  Path.resolve (process_cwd h)
    [cwd buildConfig; paths_functions_build buildConfig; file].

Definition orFile (sourceFile : option string) (file : string) : string :=
  if truthyPath sourceFile then default file sourceFile else file.

Definition buildFileOptions (h : Host) (props : BuildFileProps)
    : BuildOptions :=
  mkBuildOptions
    (bundle props)
    "node"
    ("node" +:+ node (config (buildConfig props)))
    "external"
    "cjs"
    (getBuildFunctionsFilePath h (buildConfig props) (file props))
    (match input props with
     | InputEntry path _ => Some [path]
     | InputContents _ _ => None
     end)
    (match input props with
     | InputContents contents sourceFile =>
         Some (mkStdin
                 (sourceFileLoader (orFile sourceFile (file props)))
                 contents
                 (orFile sourceFile (file props))
                 (resolvePath props))
     | InputEntry _ _ => None
     end)
    true
    false
    (incremental props)
    true.

Definition buildFile (h : Host) (compile : Compiler) (props : BuildFileProps)
    (disk : Disk) : promise BuildResult * Disk :=
  esbuild_build compile (buildFileOptions h props) disk.

(** ** cli/commands/dev/index.ts *)

Module Dev.

(** *** Child supervision *)

(** A spawned child process, by its identity. *)
Definition ChildProcess : Type := nat.

Inductive Signal : Type := SIGINT | SIGTERM | SIGHUP | SIGQUIT.

Definition signals : list Signal := [SIGINT; SIGTERM; SIGHUP; SIGQUIT].

Record Supervisor : Type := mkSupervisor {
  exiting : bool;
  children : list ChildProcess;
  (** the status [process.exit] was called with *)
  exited : option Z;
  (** the calls [child.kill(signal)] made so far *)
  kills : list (ChildProcess * Signal);
}.

Definition start : Supervisor := mkSupervisor false [] None [].

(** [Array.prototype.indexOf] *)
Fixpoint indexOf (l : list ChildProcess) (child : ChildProcess) : Z :=
  match l with
  | [] => -1
  | x :: l' =>
      if Nat.eqb x child then 0
      else let i := indexOf l' child in
           if (i <? 0)%Z then (-1)%Z else (i + 1)%Z
  end.

(** [Array.prototype.splice(start, deleteCount)]: a negative [start] counts
    from the end of the array. *)
Definition splice {A : Type} (l : list A) (start : Z) (deleteCount : nat)
    : list A :=
  let len := Z.of_nat (length l) in
  let actualStart :=
    Z.to_nat (if (start <? 0)%Z then Z.max (len + start) 0
              else Z.min start len) in
  take actualStart l ++ drop (actualStart + deleteCount) l.

Definition exitIfNoChildren (s : Supervisor) : Supervisor :=
  match children s with
  | [] => mkSupervisor (exiting s) (children s) (Some 0%Z) (kills s)
  | _ :: _ => s
  end.

(** [addChild]: the push; the [exit] listener it installs is [onExit]. *)
Definition addChild (child : ChildProcess) (s : Supervisor) : Supervisor :=
  mkSupervisor (exiting s) (children s ++ [child]) (exited s) (kills s).

Definition onExit (child : ChildProcess) (s : Supervisor) : Supervisor :=
  let s :=
    mkSupervisor (exiting s)
      (splice (children s) (indexOf (children s) child) 1)
      (exited s) (kills s) in
  if exiting s then exitIfNoChildren s else s.

(** The listener installed for each of [signals]. *)
Definition onSignal (signal : Signal) (s : Supervisor) : Supervisor :=
  let s := mkSupervisor true (children s) (exited s) (kills s) in
  let s := exitIfNoChildren s in
  match exited s with
  | Some _ => s
  | None =>
      mkSupervisor (exiting s) (children s) (exited s)
        (kills s ++ map (fun child => (child, signal)) (children s))
  end.

(** What happens to the supervising process. *)
Inductive Event : Type :=
| Spawned (child : ChildProcess)
| ChildExited (child : ChildProcess)
| Received (signal : Signal).

(** No listener runs once [process.exit] was called. *)
Definition handle (e : Event) (s : Supervisor) : Supervisor :=
  match exited s with
  | Some _ => s
  | None =>
      match e with
      | Spawned child => addChild child s
      | ChildExited child => onExit child s
      | Received signal => onSignal signal s
      end
  end.

(** The supervisor together with what the operating system knows: the
    children spawned so far and those that reported their exit. *)
Record Run : Type := mkRun {
  sup : Supervisor;
  spawned : list ChildProcess;
  reported : list ChildProcess;
}.

Definition boot : Run := mkRun start [] [].

(** The live process spawns a new child; a child reports its exit once,
    after it was spawned. *)
Inductive step : Run -> Event -> Run -> Prop :=
| step_spawn r child :
    exited (sup r) = None ->
    child ∉ spawned r ->
    step r (Spawned child)
      (mkRun (handle (Spawned child) (sup r)) (spawned r ++ [child])
         (reported r))
| step_exit r child :
    child ∈ spawned r -> child ∉ reported r ->
    step r (ChildExited child)
      (mkRun (handle (ChildExited child) (sup r)) (spawned r)
         (child :: reported r))
| step_signal r signal :
    step r (Received signal)
      (mkRun (handle (Received signal) (sup r)) (spawned r) (reported r)).

Inductive steps : Run -> list Event -> Run -> Prop :=
| steps_nil r : steps r [] r
| steps_cons r e r' es r'' :
    step r e r' -> steps r' es r'' -> steps r (e :: es) r''.

Definition reachable (r : Run) : Prop := ∃ es, steps boot es r.

(** The children that were spawned and have not reported their exit. *)
Definition live (r : Run) : list ChildProcess :=
  filter (fun child => child ∉ reported r) (spawned r).

(** The run right after the listener of [signal] ran. *)
Definition afterSignal (signal : Signal) (r : Run) : Run :=
  mkRun (onSignal signal (sup r)) (spawned r) (reported r).

(** What holds of every run. *)
Record invariant (r : Run) : Prop := mkInvariant {
  inv_nodup : NoDup (spawned r);
  inv_reported : forall child, child ∈ reported r -> child ∈ spawned r;
  inv_children : exited (sup r) = None -> children (sup r) = live r;
  inv_draining :
    exited (sup r) = None -> exiting (sup r) = true -> children (sup r) <> [];
  inv_exited :
    forall status, exited (sup r) = Some status ->
      status = 0%Z /\ forall child, child ∈ spawned r -> child ∈ reported r;
}.

(** Two children were spawned and are running. *)
Definition run2 : Run := mkRun (mkSupervisor false [1; 2] None []) [1; 2] [].

(** *** The consumer of the watch messages

    Each handler is run to completion before the next message is taken. *)

Section Consumer.

(** The host and the build configuration [run] resolved. *)
Variable h : Host.
Variable buildConfig : FiremynaBuildConfig.
(** The bundler. *)
Variable compile : Compiler.
(** [watchDeps], declared in [watch]: its bookkeeping and the two functions
    it hands back. *)
Variable Deps : Type.
Variable onBuild : string -> Metafile -> Deps -> Deps.
Variable onStop : string -> Deps -> Deps.
(** [writeEsbuildFile], declared in [esbuild]. *)
Variable writeEsbuildFile : option BuildResult -> Disk -> promise unit * Disk.

Record DevState : Type := mkDev {
  builds : gmap string BuildResult;
  initBuild : option BuildResult;
  functions : list FiremynaFunction;
  disk : Disk;
  deps : Deps;
  (** the handles released with [rebuild.dispose()] *)
  disposed : list BuildResult;
  (** the labels of the children the consumer launched *)
  launched : list string;
}.

(** An async function over the state of [run]. *)
Definition Async (A : Type) : Type := DevState -> promise A * DevState.

Definition ret {A : Type} (a : A) : Async A := fun st => (Fulfilled a, st).

Definition bind {A B : Type} (m : Async A) (k : A -> Async B) : Async B :=
  fun st =>
    match m st with
    | (Fulfilled a, st') => k a st'
    | (Rejected e, st') => (Rejected e, st')
    end.

Notation "'do!' x ':=' m 'in' k" := (bind m (fun x => k))
  (at level 10, x name, m at level 100, k at level 200).
Notation "m ';;!' k" := (bind m (fun _ => k))
  (at level 100, k at level 200, right associativity).

(** A call whose promise is not awaited: it runs, its outcome is dropped. *)
Definition detached {A : Type} (m : Async A) : Async unit :=
  fun st => (Fulfilled tt, snd (m st)).

(** [Promise.all] over calls already started: each one runs whatever the
    others settle with. *)
Fixpoint allOf (tasks : list (Async unit)) : Async unit :=
  fun st =>
    match tasks with
    | [] => (Fulfilled tt, st)
    | t :: ts =>
        let '(r, st') := t st in
        let '(rs, st'') := allOf ts st' in
        (match r with Rejected e => Rejected e | Fulfilled _ => rs end, st'')
    end.

Definition withDisk {A : Type} (f : Disk -> promise A * Disk) : Async A :=
  fun st =>
    let '(r, d) := f (disk st) in
    (r, mkDev (builds st) (initBuild st) (functions st) d (deps st)
          (disposed st) (launched st)).

Definition withDeps (f : Deps -> Deps) : Async unit :=
  fun st =>
    (Fulfilled tt,
     mkDev (builds st) (initBuild st) (functions st) (disk st) (f (deps st))
       (disposed st) (launched st)).

Definition setFunctions (fns : list FiremynaFunction) : Async unit :=
  fun st =>
    (Fulfilled tt,
     mkDev (builds st) (initBuild st) fns (disk st) (deps st) (disposed st)
       (launched st)).

Definition setBuilds (f : gmap string BuildResult -> gmap string BuildResult)
    : Async unit :=
  fun st =>
    (Fulfilled tt,
     mkDev (f (builds st)) (initBuild st) (functions st) (disk st) (deps st)
       (disposed st) (launched st)).

Definition setInitBuild (b : option BuildResult) : Async unit :=
  fun st =>
    (Fulfilled tt,
     mkDev (builds st) b (functions st) (disk st) (deps st) (disposed st)
       (launched st)).

(** [build?.rebuild.dispose()]: nothing for [undefined]; a build without
    [rebuild] makes the property access throw. *)
Definition dispose (b : option BuildResult) : Async unit :=
  fun st =>
    match b with
    | None => (Fulfilled tt, st)
    | Some build =>
        match rebuild build with
        | Some _ =>
            (Fulfilled tt,
             mkDev (builds st) (initBuild st) (functions st) (disk st)
               (deps st) (disposed st ++ [build]) (launched st))
        | None =>
            (Rejected
               (Error "Cannot read properties of undefined (reading 'dispose')"),
             st)
        end
    end.

Definition launch (label : string) : Async unit :=
  fun st =>
    (Fulfilled tt,
     mkDev (builds st) (initBuild st) (functions st) (disk st) (deps st)
       (disposed st) (launched st ++ [label])).

Definition get {A : Type} (f : DevState -> A) : Async A :=
  fun st => (Fulfilled (f st), st).

(** [build?.metafile && onBuild(file, build.metafile)] *)
Definition noteBuild (file : string) (build : option BuildResult)
    : Async unit :=
  match build with
  | Some b =>
      match metafile b with
      | Some m => withDeps (onBuild file m)
      | None => ret tt
      end
  | None => ret tt
  end.

(** [await build?.rebuild()] *)
Definition rebuildOf (build : option BuildResult)
    : Async (option BuildResult) :=
  match build with
  | None => ret None
  | Some b =>
      match rebuild b with
      | Some options =>
          do! r := withDisk (esbuild_build compile options) in ret (Some r)
      | None => fun st => (Rejected (Error "rebuild is not a function"), st)
      end
  end.

(** The callback given to [watchDeps]. *)
Definition onDepsChange (file : string) : Async unit :=
  do! bs := get builds in
  do! build := rebuildOf (bs !! file) in
  noteBuild file build ;;!
  withDisk (writeEsbuildFile build).

Definition incrementalBuild (fn : FiremynaFunction) : Async BuildResult :=
  withDisk
    (buildFile h compile
       (mkProps (fn_name fn +:+ ".cjs")
          (InputEntry
             (Path.resolve (process_cwd h) [cwd buildConfig; fn_path fn])
             (Some (Path.basename (fn_path fn))))
          (Path.resolve (process_cwd h)
             [cwd buildConfig; Path.dir (Path.parse (fn_path fn))])
          true buildConfig true)).

Definition incrementalBuildInit : Async (option BuildResult) :=
  match functionsInitPath (config buildConfig) with
  | None => ret None
  | Some initPath =>
      if negb (Str.truthy initPath) then ret None
      else
        do! b := withDisk
          (buildFile h compile
             (mkProps "init.cjs"
                (InputEntry
                   (Path.resolve (process_cwd h) [cwd buildConfig; initPath])
                   (Some (Path.basename initPath)))
                (Path.resolve (process_cwd h)
                   [cwd buildConfig; Path.dir (Path.parse initPath)])
                true buildConfig true)) in
        ret (Some b)
  end.

Definition startBuilding (fn : FiremynaFunction) : Async unit :=
  do! build := incrementalBuild fn in
  noteBuild (fn_name fn) (Some build) ;;!
  setBuilds (insert (fn_name fn) build) ;;!
  withDisk (writeEsbuildFile (Some build)).

Definition startBuildingInit : Async unit :=
  if negb (truthyPath (functionsInitPath (config buildConfig))) then ret tt
  else
    do! b := incrementalBuildInit in
    setInitBuild b ;;!
    noteBuild "init.cjs" b ;;!
    match b with
    | Some _ => withDisk (writeEsbuildFile b)
    | None => ret tt
    end.

Definition buildIndex : Async unit :=
  do! fns := get functions in
  let indexContents := stringifyFunctionsIndex fns buildConfig in
  do! build := withDisk
    (buildFile h compile
       (mkProps "index.cjs" (InputContents indexContents None)
          (paths_functions_src buildConfig) false buildConfig false)) in
  noteBuild "index.cjs" (Some build) ;;!
  withDisk (writeEsbuildFile (Some build)).

(** The callback [run] gives to [watchListFunction]. *)
Definition onMessage (message : FiremynaWatchMessage) : Async unit :=
  match message with
  | MessageInitial fns =>
      setFunctions fns ;;!
      allOf [startBuildingInit; allOf (map startBuilding fns); buildIndex] ;;!
      launch "Firebase"
  | MessageInit add =>
      startBuildingInit ;;!
      do! ib := get initBuild in
      match ib with
      | Some _ => buildIndex
      | None => ret tt
      end
  | MessageInit change =>
      do! ib := get initBuild in
      do! build := rebuildOf ib in
      match ib with
      | Some _ => withDisk (writeEsbuildFile build)
      | None => ret tt
      end
  | MessageInit unlink =>
      setInitBuild None ;;!
      withDeps (onStop "init.cjs")
  | MessageFunction add fn =>
      do! fns := get functions in
      setFunctions (fns ++ [fn]) ;;!
      startBuilding fn ;;!
      buildIndex
  | MessageFunction change fn =>
      do! bs := get builds in
      do! build := rebuildOf (bs !! fn_name fn) in
      withDisk (writeEsbuildFile build)
  | MessageFunction unlink fn =>
      do! fns := get functions in
      setFunctions
        (filter (fun f => fn_name f ≠ fn_name fn) fns) ;;!
      do! bs := get builds in
      dispose (bs !! fn_name fn) ;;!
      setBuilds (delete (fn_name fn)) ;;!
      (* [buildIndex()] is started here and not awaited: the build and the
         write settle after the rest of the handler. *)
      withDeps (onStop (fn_name fn)) ;;!
      detached buildIndex
  end.

(** The state [run] starts the subscription with. *)
Definition initial (d : Disk) (w : Deps) : DevState :=
  mkDev ∅ None [] d w [] [].

(** Exactly one build unit per live function name: the keys of the
    build-unit map are the names of the function set. *)
Definition unitsMatch (st : DevState) : Prop :=
  dom (builds st) =@{gset string} list_to_set (map fn_name (functions st)).

(** The units of the map are incremental builds, as its type
    [Record<string, BuildIncremental>] says. *)
Definition incrementalUnits (st : DevState) : Prop :=
  forall name build, builds st !! name = Some build -> is_Some (rebuild build).

(** A call that leaves the function set, the build-unit map and the
    released handles alone. *)
Definition keeps {A : Type} (m : Async A) : Prop :=
  forall st,
    functions (snd (m st)) = functions st /\
    builds (snd (m st)) = builds st /\
    disposed (snd (m st)) = disposed st.

End Consumer.

Arguments unitsMatch {Deps} st.
Arguments incrementalUnits {Deps} st.
Arguments keeps {Deps A} m.

End Dev.

(** ** Vocabulary of the specification *)

(** The recognized script extensions and the recognized index file names. *)
Definition scriptExtensions : list string := [".js"; ".ts"; ".jsx"; ".tsx"].

Definition indexFileNames : list string :=
  ["index.js"; "index.ts"; "index.jsx"; "index.tsx"].

Definition noLineTerminator (s : string) : bool :=
  Str.all (fun c => negb (RegExp.is_line_terminator c)) s.

(** The tail the two patterns share: [\.[tj]sx?] *)
Definition extensionPattern : RegExp.regex :=
  RegExp.Seq (RegExp.Chr ".")
    (RegExp.Seq (RegExp.Class tj)
       (RegExp.Seq (RegExp.Chr "s") (RegExp.Opt (RegExp.Chr "x")))).

(** A path segment: a non-empty name without separator. *)
Definition isSegment (s : string) : Prop := s <> "" /\ Str.no_slash s = true.

(** A file or directory name: a segment other than [.] and [..]. *)
Definition isName (s : string) : Prop := isSegment s /\ s <> "." /\ s <> "..".

(** Every segment of the path is empty or a name. *)
Definition isClean (p : string) : Prop :=
  Forall (fun s => s = "" \/ isName s) (Str.split "/" p).

(** [functionPath] lies under the function source root: relative to the
    root it is the non-empty sequence [segments] of names. *)
Definition underSourceRoot (h : Host) (buildConfig : FiremynaBuildConfig)
    (functionPath : string) (segments : list string) : Prop :=
  Forall isSegment segments /\ segments <> [] /\
  Path.relative (process_cwd h)
    (Path.resolve (process_cwd h)
       [cwd buildConfig; paths_functions_src buildConfig])
    functionPath = Str.join "/" segments.

(** A flat file matching the function-file pattern: a stem of one or more
    characters, none a line terminator, then a script extension. *)
Definition flatFunction (segments : list string) (name : string) : Prop :=
  exists ext, segments = [name +:+ ext] /\ ext ∈ scriptExtensions /\
    name <> "" /\ noLineTerminator name = true.

(** An index file one directory level below the root. *)
Definition indexFunction (segments : list string) (name : string) : Prop :=
  exists base, segments = [name; base] /\ base ∈ indexFileNames.

(** The flat-file rule the way the specification words it: a script
    extension, and not the index module itself. *)
Definition claimedFlatFunction (segments : list string) (name : string)
    : Prop :=
  exists ext, segments = [name +:+ ext] /\ ext ∈ scriptExtensions /\
    name <> "" /\ name +:+ ext ∉ indexFileNames.

(** ** Concrete projects *)

Module Sample.

Definition config0 : FiremynaConfig := mkConfig "18" None None None.

Definition buildConfig0 : FiremynaBuildConfig :=
  mkBuildConfig "/proj" config0 "functions" "build/functions" false.

(** A function directory holding [hello.ts], [index.ts] and the directories
    [greet] and [foo.bar], each with an index file. *)
Definition host0 : Host :=
  mkHost "/proj"
    (fun p =>
       if String.eqb p "/proj/functions"
       then Fulfilled ["hello.ts"; "greet"; "foo.bar"; "index.ts"]
       else if String.eqb p "/proj/functions/greet" then Fulfilled ["index.ts"]
       else if String.eqb p "/proj/functions/foo.bar"
       then Fulfilled ["index.ts"]
       else Rejected (FsError "scandir" p))
    (fun p =>
       if String.eqb p "/proj/functions/hello.ts" then Fulfilled false
       else if String.eqb p "/proj/functions/index.ts" then Fulfilled false
       else if String.eqb p "/proj/functions/greet" then Fulfilled true
       else if String.eqb p "/proj/functions/foo.bar" then Fulfilled true
       else Rejected (FsError "stat" p)).

(** The scenario of the specification: [hello.ts] and [greet/index.ts]. *)
Definition host1 : Host :=
  mkHost "/proj"
    (fun p =>
       if String.eqb p "/proj/functions" then Fulfilled ["hello.ts"; "greet"]
       else if String.eqb p "/proj/functions/greet" then Fulfilled ["index.ts"]
       else Rejected (FsError "scandir" p))
    (fun p =>
       if String.eqb p "/proj/functions/hello.ts" then Fulfilled false
       else if String.eqb p "/proj/functions/greet" then Fulfilled true
       else Rejected (FsError "stat" p)).

(** The same listing with an entry [broken] that cannot be stat-ed. *)
Definition host2 : Host :=
  mkHost "/proj"
    (fun p =>
       if String.eqb p "/proj/functions"
       then Fulfilled ["hello.ts"; "broken"; "greet"]
       else if String.eqb p "/proj/functions/greet" then Fulfilled ["index.ts"]
       else Rejected (FsError "scandir" p))
    (fun p =>
       if String.eqb p "/proj/functions/hello.ts" then Fulfilled false
       else if String.eqb p "/proj/functions/greet" then Fulfilled true
       else Rejected (FsError "stat" p)).

(** A project whose function directory does not exist. *)
Definition host3 : Host :=
  mkHost "/proj"
    (fun p => Rejected (FsError "scandir" p))
    (fun p => Rejected (FsError "stat" p)).

Definition hello : FiremynaFunction := mkFunction "functions/hello.ts" "hello".
Definition greet : FiremynaFunction :=
  mkFunction "functions/greet/index.ts" "greet".

(** A bundler that compiles every input to one output file, and one that
    reports diagnostics for every input. *)
Definition compileOk : Compiler :=
  fun options disk =>
    Fulfilled ([mkOutputFile (outfile options) "module.exports = {};"], []).

Definition compileFail : Compiler :=
  fun options disk => Rejected (Error "Build failed with 1 error").

(** Modelled from the spec: [writeEsbuildFile] of [esbuild], which persists
    every output buffer of the artifact to its destination, overwriting. *)
Definition writeEsbuildFile (build : option BuildResult) (disk : Disk)
    : promise unit * Disk :=
  (Fulfilled tt,
   match build with
   | Some b => writeFiles (default [] (outputFiles b)) disk
   | None => disk
   end).

(** A dependency watcher without bookkeeping. *)
Definition onBuild (file : string) (m : Metafile) (w : unit) : unit := w.
Definition onStop (file : string) (w : unit) : unit := w.

End Sample.

(** The inclusion policy in the words of the specification. *)
Definition isConfiguredInitPath (buildConfig : FiremynaBuildConfig)
    (path : string) : Prop :=
  exists init, functionsInitPath (config buildConfig) = Some init /\
    init <> "" /\ Path.normalize path = Path.normalize init.

Definition matchesIgnorePattern (buildConfig : FiremynaBuildConfig)
    (path : string) : Prop :=
  exists patterns regex,
    functionsIgnorePaths (config buildConfig) = Some patterns /\
    regex ∈ patterns /\ regex path = true.

Definition allowedName (buildConfig : FiremynaBuildConfig) (name : string)
    : Prop :=
  forall only, onlyFunctions (config buildConfig) = Some only -> name ∈ only.

(** The lines of the index text. *)
Definition initLines (buildConfig : FiremynaBuildConfig) : list string :=
  if truthyPath (functionsInitPath (config buildConfig))
  then [importInitLine] else [].

Definition rendererLines (buildConfig : FiremynaBuildConfig) : list string :=
  if renderer buildConfig then [exportRendererLine] else [].

Definition noLineFeed (s : string) : bool :=
  Str.all (fun c => negb (Ascii.eqb c "010")) s.

(** A candidate of the directory listing whose [stat] fails, or which is a
    directory whose [readdir] fails. *)
Definition candidateFails (h : Host) (buildConfig : FiremynaBuildConfig)
    (itemPath : string) : Prop :=
  let fullPath :=
    Path.resolve (process_cwd h)
      [cwd buildConfig; paths_functions_src buildConfig; itemPath] in
  isRejected (stat_isDirectory h fullPath) = true \/
  (stat_isDirectory h fullPath = Fulfilled true /\
   isRejected (readdir h fullPath) = true).

Definition sourceRoot (h : Host) (buildConfig : FiremynaBuildConfig)
    : string :=
  Path.resolve (process_cwd h)
    [cwd buildConfig; paths_functions_src buildConfig].

(** The module resolver in the words of the specification. *)
Definition builtinPrefixed (builtinModules : list string) (specifier : string)
    : Prop :=
  exists module, module ∈ builtinModules /\
    Str.startsWith specifier module = true.

Definition unresolvable (answer : Resolve.ResolverAnswer) : Prop :=
  Resolve.err answer <> None \/ truthyPath (Resolve.resolved answer) = false.

(** The path has a directory named [node_modules] above it. *)
Definition underNodeModules (path : string) : bool :=
  existsb (String.eqb "node_modules")
    (Path.segments (Path.dir (Path.parse path))).

Module SampleResolve.

Definition builtinModules : list string :=
  ["assert"; "fs"; "fs/promises"; "path"; "util"].

(** A project with [fs-extra] installed and a local module whose file name
    starts with [node_modules]. *)
Definition resolver : Resolve.Resolver :=
  fun resolveDir path =>
    if String.eqb path "fs-extra" then
      Resolve.mkAnswer None (Some "/proj/node_modules/fs-extra/lib/index.js")
    else if String.eqb path "./node_modules_shim" then
      Resolve.mkAnswer None (Some "/proj/functions/node_modules_shim.ts")
    else if String.eqb path "./db" then
      Resolve.mkAnswer None (Some "/proj/functions/db.ts")
    else
      Resolve.mkAnswer (Some (Error "Can't resolve")) None.

(** A resolver that resolves nothing. *)
Definition failing : Resolve.Resolver :=
  fun resolveDir path => Resolve.mkAnswer (Some (Error "Can't resolve")) None.

End SampleResolve.

Module SampleDev.

(** The consumer of the sample project, with a bundler. *)
Definition onMessage (compile : Compiler) :=
  Dev.onMessage Sample.host1 Sample.buildConfig0 compile unit Sample.onBuild
    Sample.onStop Sample.writeEsbuildFile.

Definition helloOptions : BuildOptions :=
  buildFileOptions Sample.host1
    (mkProps "hello.cjs"
       (InputEntry "/proj/functions/hello.ts" (Some "hello.ts"))
       "/proj/functions" true Sample.buildConfig0 true).

Definition helloBuild : BuildResult :=
  mkBuildResult
    (Some [mkOutputFile "/proj/build/functions/hello.cjs" "module.exports = {};"])
    (Some []) (Some helloOptions).

(** The state the subscription starts with, on an empty output directory. *)
Definition start : Dev.DevState unit := Dev.initial unit ∅ tt.

(** The state after [hello] was built and written. *)
Definition built : Dev.DevState unit :=
  Dev.mkDev unit {[ "hello" := helloBuild ]} None [Sample.hello]
    {[ "/proj/build/functions/hello.cjs" := "module.exports = {};" ]}
    tt [] ["Firebase"].

End SampleDev.

(** ** The one-shot build of functions/index.ts *)

Module Build.

(** One of the promises [buildFunctions] hands to [Promise.all]: run
    against the disk, it settles with the entry it assigns to the build
    record, if any. *)
Definition Task : Type :=
  Disk -> promise (option (string * BuildResult)) * Disk.

(** The async callback mapped over the functions; [readFile] is
    [fs/promises.readFile(path, "utf8")]. *)
Definition functionTask (h : Host) (readFile : string -> promise string)
    (compile : Compiler) (buildConfig : FiremynaBuildConfig)
    (fn : FiremynaFunction) : Task :=
  fun disk =>
    let pcwd := process_cwd h in
    let file := fn_name fn +:+ ".cjs" in
    let resolvePath :=
      Path.dir
        (Path.parse
           (Path.relative pcwd (cwd buildConfig)
              (Path.resolve pcwd [cwd buildConfig; fn_path fn]))) in
    match readFile (Path.resolve pcwd [cwd buildConfig; fn_path fn]) with
    | Rejected e => (Rejected e, disk)
    | Fulfilled contents =>
        let '(r, disk') :=
          buildFile h compile
            (mkProps file
               (InputContents contents (Some (Path.basename (fn_path fn))))
               resolvePath true buildConfig false)
            disk in
        (await! result := r in Fulfilled (Some (file, result)), disk')
    end.

Definition indexTask (h : Host) (compile : Compiler)
    (buildConfig : FiremynaBuildConfig) (indexContents : string) : Task :=
  fun disk =>
    let '(r, disk') :=
      buildFile h compile
        (mkProps "index.cjs" (InputContents indexContents None)
           (paths_functions_src buildConfig) false buildConfig false)
        disk in
    (await! result := r in Fulfilled (Some ("index.cjs", result)), disk').

(** [functionsInitPath && readFile(...).then(...)]: without an init path
    the array element is no promise and assigns nothing. *)
Definition initTask (h : Host) (readFile : string -> promise string)
    (compile : Compiler) (buildConfig : FiremynaBuildConfig) : Task :=
  fun disk =>
    match functionsInitPath (config buildConfig) with
    | None => (Fulfilled None, disk)
    | Some initPath =>
        if negb (Str.truthy initPath) then (Fulfilled None, disk)
        else
          match readFile initPath with
          | Rejected e => (Rejected e, disk)
          | Fulfilled contents =>
              let '(r, disk') :=
                buildFile h compile
                  (mkProps "init.cjs" (InputContents contents None)
                     (Path.dir (Path.parse initPath)) false buildConfig false)
                  disk in
              (await! result := r in Fulfilled (Some ("init.cjs", result)),
               disk')
          end
    end.

Fixpoint startAll (tasks : list Task) (disk : Disk)
    : list (promise (option (string * BuildResult))) * Disk :=
  match tasks with
  | [] => ([], disk)
  | t :: ts =>
      let '(r, disk') := t disk in
      let '(rs, disk'') := startAll ts disk' in
      (r :: rs, disk'')
  end.

Definition assign (build : gmap string BuildResult)
    (entry : string * BuildResult) : gmap string BuildResult :=
  <[fst entry := snd entry]> build.

(** [buildFunctions]: the build record it resolves with, and the disk.
    The entries are assigned as the builds settle; the model assigns them in
    array order (functions, index, init). *)
Definition buildFunctions (h : Host) (readFile : string -> promise string)
    (compile : Compiler) (buildConfig : FiremynaBuildConfig) (disk : Disk)
    : promise (gmap string BuildResult) * Disk :=
  match listFunctions h buildConfig with
  | Rejected e => (Rejected e, disk)
  | Fulfilled fns =>
      let indexContents := stringifyFunctionsIndex fns buildConfig in
      let '(settled, disk') :=
        startAll
          (map (functionTask h readFile compile buildConfig) fns ++
           [indexTask h compile buildConfig indexContents;
            initTask h readFile compile buildConfig])
          disk in
      (await! entries := Promise_all settled in
       Fulfilled (fold_left assign (sweep entries) ∅),
       disk')
  end.

(** The keys [buildFunctions] assigns. *)
Definition files (buildConfig : FiremynaBuildConfig)
    (fns : list FiremynaFunction) : gset string :=
  list_to_set (map (fun fn => fn_name fn +:+ ".cjs") fns) ∪ {["index.cjs"]} ∪
  (if truthyPath (functionsInitPath (config buildConfig))
   then {["init.cjs"]} else ∅).

End Build.

(** ** The log lines of cli/commands/dev/index.ts *)

Module Log.

(** The first [n] characters of [rest] followed by [filler] over and over. *)
Fixpoint cycle (n : nat) (filler rest : string) : string :=
  match n with
  | O => ""
  | S n' =>
      match rest with
      | String c r => String c (cycle n' filler r)
      | EmptyString =>
          match filler with
          | String c r => String c (cycle n' filler r)
          | EmptyString => ""
          end
      end
  end.

(** [String.prototype.padStart] *)
Definition padStart (s : string) (maxLength : nat) (fillString : string)
    : string :=
  if Nat.leb maxLength (String.length s) then s
  else if negb (Str.truthy fillString) then s
  else cycle (Nat.sub maxLength (String.length s)) fillString fillString +:+ s.

Record LogProps : Type := mkLogProps {
  label : string;
  formatter : string -> string;
  message : string;
  error : bool;
}.

(** [log]: the line it passes to [console.log]; [red] and [dim] are the
    formatters of picocolors. *)
Definition log (red dim : string -> string) (props : LogProps) : string :=
  let paddedLabel := padStart (label props) 8 " " in
  let formattedLabel := paddedLabel +:+ " | " in
  if error props then red formattedLabel +:+ message props
  else dim (formatter props formattedLabel) +:+ message props.

Fixpoint spaces (n : nat) : string :=
  match n with
  | O => ""
  | S n' => String " " (spaces n')
  end.

End Log.

(** ** More vocabulary *)

(** The message kind of a notification; none for directory events. *)
Definition watchEventOf (event : ChokidarEvent) : option WatchEvent :=
  match event with
  | chokidar_add => Some add
  | chokidar_change => Some change
  | chokidar_unlink => Some unlink
  | chokidar_addDir | chokidar_unlinkDir => None
  end.

Definition isInitMessage (m : FiremynaWatchMessage) : bool :=
  match m with MessageInit _ => true | _ => false end.

Definition isSignal (e : Dev.Event) : bool :=
  match e with Dev.Received _ => true | _ => false end.

(** A [writeEsbuildFile] that leaves the disk alone. *)
Definition writesNothing
    (writeEsbuildFile : option BuildResult -> Disk -> promise unit * Disk)
    : Prop :=
  forall build disk, snd (writeEsbuildFile build disk) = disk.

(** A call that leaves the disk alone. *)
Definition keepsDisk {Deps A : Type} (m : Dev.Async Deps A) : Prop :=
  forall st, Dev.disk Deps (snd (m st)) = Dev.disk Deps st.

(** What a task of [buildFunctions] does: it leaves the disk alone, and
    when it settles well it assigns the in-memory result of a build under
    the keys [keys] (one key, or none). *)
Definition taskOk (t : Build.Task) (keys : list string) : Prop :=
  forall d,
    snd (t d) = d /\
    forall o, fst (t d) = Fulfilled o ->
      match o with
      | Some (key, result) => keys = [key] /\ is_Some (outputFiles result)
      | None => keys = []
      end.

(** The segments [normalizeString] keeps, last one first: names, on top of
    the [..] that climb above the start (none for an absolute path). *)
Definition keptSegments (allow : bool) (acc : list string) : Prop :=
  exists names k,
    acc = names ++ repeat ".." k /\ Forall isName names /\
    (allow = false -> k = 0).

(** What [path.normalize] makes of the segments it keeps. *)
Definition renderKept (isAbs trailingSeparator : bool) (l : list string)
    : string :=
  let p := Str.join "/" l in
  if negb (Str.truthy p) then
    (if isAbs then "/" else if trailingSeparator then "./" else ".")
  else
    let p := if trailingSeparator then p +:+ "/" else p in
    if isAbs then "/" +:+ p else p.

Module Sample2.

Definition readFile : string -> promise string :=
  fun path => Fulfilled "export default () => {};".

(** [writeEsbuildFile] replaced by a stub that writes nothing. *)
Definition writeNothing (build : option BuildResult) (disk : Disk)
    : promise unit * Disk := (Fulfilled tt, disk).

End Sample2.

(** The incremental handles of the state re-run builds that hand their
    outputs back in memory, as those [buildFile] starts do. *)
Definition inMemoryUnits {Deps : Type} (st : Dev.DevState Deps) : Prop :=
  (forall name build options,
     Dev.builds Deps st !! name = Some build ->
     rebuild build = Some options -> write options = false) /\
  (forall build options,
     Dev.initBuild Deps st = Some build ->
     rebuild build = Some options -> write options = false).

(** * Properties *)

Local Arguments String.append : simpl nomatch.
Set Warnings "-clear-no-such-hyp".

(** ** Regular expressions *)

Module RegExpFacts.
Import RegExp.

Lemma append_nil_r (s : string) : s +:+ "" = s.
Proof. induction s as [|c s IH]; simpl; [done | by rewrite IH]. Qed.

Lemma append_assoc (a b c : string) : (a +:+ b) +:+ c = a +:+ b +:+ c.
Proof. induction a as [|x a IH]; simpl; [done | by rewrite IH]. Qed.

Lemma append_eq_nil (a b : string) : a +:+ b = "" -> a = "" /\ b = "".
Proof. destruct a; simpl; [done | discriminate]. Qed.

Lemma nullable_matches r : nullable r = true <-> matches r "".
Proof.
  split.
  - induction r as [| |p|a IHa b IHb|a IHa b IHb|a IHa]; simpl; intros Hn;
      try discriminate.
    + constructor.
    + apply andb_true_iff in Hn as [Ha Hb].
      change "" with ("" +:+ ""). constructor; auto.
    + apply orb_true_iff in Hn as [Ha | Hb];
        [apply MAltL | apply MAltR]; auto.
    + constructor.
  - intros Hm. remember "" as s eqn:Es.
    induction Hm; simpl; try discriminate; auto.
    + apply append_eq_nil in Es as [-> ->].
      rewrite IHHm1, IHHm2; auto.
    + rewrite IHHm; auto.
    + rewrite IHHm; auto. apply orb_true_r.
Qed.

Lemma deriv_sound c r : forall s, matches (deriv c r) s -> matches r (String c s).
Proof.
  induction r as [| |p|a IHa b IHb|a IHa b IHb|a IHa]; simpl; intros s Hm.
  - inversion Hm.
  - inversion Hm.
  - destruct (p c) eqn:Hp; inversion Hm; subst. by constructor.
  - destruct (nullable a) eqn:Hn.
    + inversion Hm as [| |? ? s1 s2 H1 H2| ? ? ? H1 | ? ? ? H1 | |]; subst.
      * inversion H1; subst.
        change (String c (?x +:+ ?y)) with (String c x +:+ y).
        constructor; auto.
      * change (String c s) with ("" +:+ String c s).
        constructor; auto. by apply nullable_matches.
    + inversion Hm; subst.
      change (String c (?x +:+ ?y)) with (String c x +:+ y).
      constructor; auto.
  - inversion Hm; subst; [apply MAltL | apply MAltR]; auto.
  - inversion Hm; subst.
    change (String c (?x +:+ ?y)) with (String c x +:+ y).
    constructor; auto.
Qed.

Lemma deriv_complete r t :
  matches r t -> forall c s, t = String c s -> matches (deriv c r) s.
Proof.
  induction 1 as [|p x Hp|a b s1 s2 H1 IH1 H2 IH2|a b u H1 IH1|a b u H1 IH1
                  | a | a x s1 s2 H1 IH1 H2 IH2]; intros c s E; simpl.
  - discriminate.
  - injection E as -> <-. rewrite Hp. constructor.
  - destruct s1 as [|x s1']; simpl in E.
    + subst s2. apply nullable_matches in H1. rewrite H1.
      apply MAltR. by apply IH2.
    + injection E as -> <-.
      destruct (nullable a); [apply MAltL |]; constructor; auto.
  - apply MAltL; auto.
  - apply MAltR; auto.
  - discriminate.
  - simpl in E. injection E as -> <-. constructor; auto.
Qed.

Lemma test_matches r s : test r s = true <-> matches r s.
Proof.
  revert r. induction s as [|c s IH]; intros r; simpl.
  - apply nullable_matches.
  - rewrite IH. split; [apply deriv_sound | intros H; by eapply deriv_complete].
Qed.

Lemma matches_seq_inv a b s :
  matches (Seq a b) s -> exists s1 s2, s = s1 +:+ s2 /\ matches a s1 /\ matches b s2.
Proof. inversion 1; subst; eauto. Qed.

Lemma matches_class_inv p s :
  matches (Class p) s -> exists c, s = String c "" /\ p c = true.
Proof. inversion 1; subst; eauto. Qed.

Lemma matches_chr_inv c s : matches (Chr c) s -> s = String c "".
Proof.
  intros (x & -> & Hx)%matches_class_inv.
  apply Ascii.eqb_eq in Hx. by subst.
Qed.

Lemma matches_opt_inv r s : matches (Opt r) s -> matches r s \/ s = "".
Proof. inversion 1 as [| | | ? ? ? H1 | ? ? ? H1 | |]; subst; auto. inversion H1; auto. Qed.

Lemma matches_lit_inv l s : matches (Lit l) s -> s = l.
Proof.
  revert s. induction l as [|c l IH]; simpl; intros s H.
  - by inversion H.
  - apply matches_seq_inv in H as (s1 & s2 & -> & H1%matches_chr_inv & H2%IH).
    by subst.
Qed.

Lemma matches_star_class p s :
  matches (Star (Class p)) s <-> Str.all p s = true.
Proof.
  split.
  - intros H. remember (Star (Class p)) as r eqn:Er.
    induction H; try discriminate; auto.
    injection Er as ->.
    apply matches_class_inv in H as (x & [= -> ->] & Hx).
    simpl. rewrite Hx. auto.
  - induction s as [|c s IH]; simpl; intros H.
    + constructor.
    + apply andb_true_iff in H as [Hc Hs].
      change (String c s) with (String c "" +:+ s).
      constructor; [by constructor | auto].
Qed.

Lemma tj_inv c : tj c = true -> c = "t"%char \/ c = "j"%char.
Proof.
  unfold tj. intros [H | H]%orb_true_iff; apply Ascii.eqb_eq in H; auto.
Qed.

Lemma matches_extension s :
  matches extensionPattern s <-> s ∈ scriptExtensions.
Proof.
  split.
  - intros H. unfold extensionPattern in H.
    apply matches_seq_inv in H as (s1 & r1 & -> & ->%matches_chr_inv & H).
    apply matches_seq_inv in H as (s2 & r2 & -> & H2 & H).
    apply matches_class_inv in H2 as (c & -> & Hc%tj_inv).
    apply matches_seq_inv in H as (s3 & s4 & -> & ->%matches_chr_inv & H).
    apply matches_opt_inv in H as [->%matches_chr_inv | ->];
      destruct Hc as [-> | ->]; simpl; unfold scriptExtensions; set_solver.
  - unfold scriptExtensions. intros H.
    apply test_matches.
    repeat (apply elem_of_cons in H as [-> | H]; [reflexivity |]).
    by apply elem_of_nil in H.
Qed.

Lemma test_indexRegExp s :
  test indexRegExp s = true <-> s ∈ indexFileNames.
Proof.
  split.
  - intros H%test_matches. unfold indexRegExp in H.
    apply matches_seq_inv in H as (s1 & s2 & -> & ->%matches_lit_inv & H).
    apply matches_extension in H. unfold scriptExtensions in H.
    unfold indexFileNames.
    repeat (apply elem_of_cons in H as [-> | H]; [simpl; set_solver |]).
    by apply elem_of_nil in H.
  - unfold indexFileNames. intros H.
    repeat (apply elem_of_cons in H as [-> | H]; [reflexivity |]).
    by apply elem_of_nil in H.
Qed.

Lemma test_fnRegExp s :
  test fnRegExp s = true <->
  exists stem ext, s = stem +:+ ext /\ stem <> "" /\
    noLineTerminator stem = true /\ ext ∈ scriptExtensions.
Proof.
  rewrite test_matches. split.
  - intros H. unfold fnRegExp in H.
    apply matches_seq_inv in H as (s1 & e & -> & H1 & He).
    apply matches_extension in He.
    apply matches_seq_inv in H1 as (d & r & -> & Hd & Hr).
    apply matches_class_inv in Hd as (c & -> & Hc).
    apply matches_star_class in Hr.
    exists (String c r), e. repeat split; auto.
    unfold noLineTerminator. simpl. by rewrite Hc.
  - intros (stem & e & -> & Hne & Hlt & He).
    destruct stem as [|c r]; [done |].
    unfold noLineTerminator in Hlt. simpl in Hlt.
    apply andb_true_iff in Hlt as [Hc Hr].
    unfold fnRegExp. constructor; [| by apply matches_extension].
    change (String c r) with (String c "" +:+ r).
    constructor; [by constructor | by apply matches_star_class].
Qed.

End RegExpFacts.

(** ** Splitting and joining *)

Module StrFacts.

Lemma split_no_sep sep s :
  Str.all (fun c => negb (Ascii.eqb c sep)) s = true -> Str.split sep s = [s].
Proof.
  induction s as [|c s IH]; simpl; [done |].
  intros [Hc Hs]%andb_true_iff. apply negb_true_iff in Hc as ->.
  by rewrite IH.
Qed.

Lemma split_app_sep sep a rest :
  Str.all (fun c => negb (Ascii.eqb c sep)) a = true ->
  Str.split sep (a +:+ String sep rest) = a :: Str.split sep rest.
Proof.
  induction a as [|c a IH]; simpl.
  - by rewrite Ascii.eqb_refl.
  - intros [Hc Ha]%andb_true_iff. apply negb_true_iff in Hc as ->.
    by rewrite IH.
Qed.

Lemma split_join sep l :
  l <> [] ->
  Forall (fun s => Str.all (fun c => negb (Ascii.eqb c sep)) s = true) l ->
  Str.split sep (Str.join (String sep "") l) = l.
Proof.
  induction l as [|x l IH]; [done |]. intros _ [Hx Hl]%Forall_cons.
  destruct l as [|y l]; [by apply split_no_sep |].
  change (Str.join (String sep "") (x :: y :: l))
    with (x +:+ String sep (Str.join (String sep "") (y :: l))).
  rewrite split_app_sep by done. by rewrite IH.
Qed.

End StrFacts.

(** ** Paths *)

Module PathFacts.
Import RegExpFacts.

Lemma rsplit_app_sep sep a rest :
  Str.rsplit sep (a +:+ String sep rest) =
  match Str.rsplit sep rest with
  | Some (x, y) => Some (a +:+ String sep x, y)
  | None => Some (a, rest)
  end.
Proof.
  induction a as [|c a IH]; simpl.
  - destruct (Str.rsplit sep rest) as [[x y]|]; [done |].
    by rewrite Ascii.eqb_refl.
  - rewrite IH. by destruct (Str.rsplit sep rest) as [[x y]|].
Qed.

Lemma rsplit_none sep s :
  Str.all (fun c => negb (Ascii.eqb c sep)) s = true -> Str.rsplit sep s = None.
Proof.
  induction s as [|c s IH]; simpl; [done |].
  intros [Hc Hs]%andb_true_iff. rewrite IH by done.
  by apply negb_true_iff in Hc as ->.
Qed.

Lemma rstrip_no_sep sep s :
  Str.all (fun c => negb (Ascii.eqb c sep)) s = true -> Str.rstrip sep s = s.
Proof.
  induction s as [|c s IH]; simpl; [done |].
  intros [Hc Hs]%andb_true_iff. rewrite IH by done.
  apply negb_true_iff in Hc as ->. by destruct s.
Qed.

Lemma rstrip_app sep a b :
  Str.rstrip sep b <> "" -> Str.rstrip sep (a +:+ b) = a +:+ Str.rstrip sep b.
Proof.
  intros Hb. induction a as [|c a IH]; simpl; [done |].
  rewrite IH. destruct (Str.rstrip sep b); [done |]. by destruct a.
Qed.

Lemma join_snoc sep l b :
  l <> [] -> Str.join sep (l ++ [b]) = Str.join sep l +:+ sep +:+ b.
Proof.
  induction l as [|x l IH]; [done |]. intros _.
  destruct l as [|y l]; [done |].
  change (Str.join sep ((x :: y :: l) ++ [b]))
    with (x +:+ sep +:+ Str.join sep ((y :: l) ++ [b])).
  rewrite IH by done.
  change (Str.join sep (x :: y :: l)) with (x +:+ sep +:+ Str.join sep (y :: l)).
  by rewrite !append_assoc.
Qed.

Lemma segment_truthy s : isSegment s -> Str.truthy s = true.
Proof. intros [Hne _]. by destruct s. Qed.

Lemma segment_relative s : isSegment s -> Path.isAbsolute s = false.
Proof.
  intros [Hne Hs]. destruct s as [|c s]; [done |].
  unfold Str.no_slash in Hs. simpl in Hs.
  apply andb_true_iff in Hs as [Hc _]. by apply negb_true_iff in Hc.
Qed.

Lemma join_truthy l : Forall isSegment l -> l <> [] -> Str.truthy (Str.join "/" l) = true.
Proof.
  intros Hl Hne. destruct l as [|x l]; [done |].
  apply Forall_cons in Hl as [[Hx _] _].
  destruct x; [done |]. by destruct l.
Qed.

Lemma join_relative l :
  Forall isSegment l -> Path.isAbsolute (Str.join "/" l) = false.
Proof.
  intros Hl. destruct l as [|x l]; [done |].
  apply Forall_cons in Hl as [Hx _].
  pose proof (segment_relative x Hx) as Hr. destruct Hx as [Hne _].
  destruct x; [done |]. by destruct l.
Qed.

Lemma rsplit_join l b :
  isSegment b ->
  Str.rsplit "/" (Str.join "/" (l ++ [b])) =
  match l with [] => None | _ => Some (Str.join "/" l, b) end.
Proof.
  intros [_ Hb]. destruct l as [|x l].
  - simpl. by apply rsplit_none.
  - rewrite join_snoc by done.
    change ("/" +:+ b) with (String "/" b).
    rewrite rsplit_app_sep, (rsplit_none _ b); done.
Qed.

Lemma rstrip_join l b :
  isSegment b -> Str.rstrip "/" (Str.join "/" (l ++ [b])) = Str.join "/" (l ++ [b]).
Proof.
  intros [Hne Hb].
  assert (Str.rstrip "/" b = b) as Hs by by apply rstrip_no_sep.
  destruct l as [|x l]; [done |].
  rewrite join_snoc by done.
  rewrite <- append_assoc, rstrip_app; rewrite Hs; done.
Qed.

(** [path.parse] of a relative path given by its segments. *)
Lemma parse_join l b :
  Forall isSegment l -> isSegment b ->
  Path.parse (Str.join "/" (l ++ [b])) =
  Path.mkParsedPath "" (Str.join "/" l) b
    (snd (Path.splitExt b)) (fst (Path.splitExt b)).
Proof.
  intros Hl Hb.
  assert (Forall isSegment (l ++ [b])) as Hlb.
  { apply Forall_app; split; [done | by apply Forall_singleton]. }
  unfold Path.parse.
  rewrite join_truthy by (done || by destruct l).
  rewrite join_relative by done. simpl.
  assert ((match Str.join "/" (l ++ [b]) with
           | "" => Str.join "/" (l ++ [b])
           | String _ _ => Str.join "/" (l ++ [b])
           end) = Str.join "/" (l ++ [b])) as -> by by destruct (Str.join _ _).
  rewrite rstrip_join, rsplit_join by done.
  destruct l as [|x l]; simpl; by destruct (Path.splitExt b).
Qed.

Lemma splitExt_script stem ext :
  stem <> "" -> ext ∈ scriptExtensions ->
  Path.splitExt (stem +:+ ext) = (stem, ext).
Proof.
  intros Hne He. unfold scriptExtensions in He.
  assert (exists e, ext = String "." e /\ Str.no_dot e = true /\ e <> "" ) as (e & -> & Hd & Hee).
  { repeat (apply elem_of_cons in He as [-> | He]; [eexists; split; [reflexivity | done] |]).
    by apply elem_of_nil in He. }
  unfold Path.splitExt. rewrite rsplit_app_sep, (rsplit_none _ e) by done.
  destruct stem as [|c stem]; [done |].
  destruct (String.eqb_spec (String c stem +:+ String "." e) "..") as [E | _]; [| done].
  exfalso. destruct stem as [|c' stem]; simpl in E.
  - injection E as -> E. by destruct e.
  - injection E as -> E. destruct stem; simpl in E; discriminate.
Qed.

End PathFacts.

(** ** Resolving and relating paths *)

Module RelativeFacts.
Import RegExpFacts StrFacts PathFacts.

Lemma filter_nonempty_names names :
  Forall isName names -> filter (fun s => s <> "") names = names.
Proof.
  induction 1 as [|x l ([Hx _] & _) _ IH]; [done |].
  rewrite filter_cons_True by done. by rewrite IH.
Qed.

Lemma split_nonempty sep s : Str.split sep s <> [].
Proof.
  destruct s as [|c s]; simpl; [done |].
  destruct (Ascii.eqb c sep); [done |]. by destruct (Str.split sep s).
Qed.

Lemma split_app sep a b :
  Str.split sep (a +:+ String sep b) = Str.split sep a ++ Str.split sep b.
Proof.
  induction a as [|c a IH]; simpl.
  - by rewrite Ascii.eqb_refl.
  - rewrite IH. destruct (Ascii.eqb c sep); [done |].
    pose proof (split_nonempty sep a). by destruct (Str.split sep a).
Qed.

Lemma name_step allow acc s :
  isName s -> Path.normalizeStep allow acc s = s :: acc.
Proof.
  intros ([Hne _] & Hd & Hdd). unfold Path.normalizeStep.
  destruct (String.eqb_spec s ""); [done |].
  destruct (String.eqb_spec s "."); [done |].
  by destruct (String.eqb_spec s "..").
Qed.

Lemma fold_clean allow l acc :
  Forall (fun s => s = "" \/ isName s) l ->
  fold_left (Path.normalizeStep allow) l acc =
  rev (filter (fun s => s <> "") l) ++ acc.
Proof.
  intros Hl. revert acc. induction Hl as [|s l [-> | Hs] _ IH]; intros acc.
  - done.
  - simpl. rewrite filter_cons_False by (by intros ?). apply IH.
  - simpl. rewrite name_step by done. rewrite IH.
    destruct Hs as ([Hne _] & _). rewrite filter_cons_True by done.
    simpl. by rewrite <- app_assoc.
Qed.

Lemma normalizeString_clean p allow :
  isClean p -> Path.normalizeString p allow = Str.join "/" (Path.segments p).
Proof.
  intros Hp. unfold Path.normalizeString, Path.segments.
  by rewrite fold_clean, app_nil_r, rev_involutive.
Qed.

Lemma segments_app a b :
  Path.segments (a +:+ String "/" b) = Path.segments a ++ Path.segments b.
Proof. unfold Path.segments. by rewrite split_app, filter_app. Qed.

Lemma segments_slash s : Path.segments (String "/" s) = Path.segments s.
Proof. apply (segments_app "" s). Qed.

Lemma isClean_app a b : isClean a -> isClean b -> isClean (a +:+ String "/" b).
Proof. unfold isClean. rewrite split_app. apply Forall_app_2. Qed.

Lemma isClean_slash s : isClean s -> isClean (String "/" s).
Proof. intros Hs. apply (isClean_app "" s); [repeat constructor | done]. Qed.

Lemma isClean_nil : isClean "".
Proof. repeat constructor. Qed.

Lemma names_no_slash names :
  Forall isName names ->
  Forall (fun s => Str.all (fun c => negb (Ascii.eqb c "/")) s = true) names.
Proof.
  intros Hn. eapply Forall_impl; [exact Hn |]. by intros s ([_ Hs] & _).
Qed.

Lemma split_join_names names :
  Forall isName names ->
  Str.split "/" (Str.join "/" names) =
  match names with [] => [""] | _ => names end.
Proof.
  intros Hn. destruct names as [|x l]; [done |].
  apply (split_join "/"); [done | by apply names_no_slash].
Qed.

Lemma isClean_join names : Forall isName names -> isClean (Str.join "/" names).
Proof.
  intros Hn. unfold isClean. rewrite split_join_names by done.
  destruct names; [by repeat constructor |].
  eapply Forall_impl; [exact Hn | by right].
Qed.

Lemma segments_join names :
  Forall isName names -> Path.segments (Str.join "/" names) = names.
Proof.
  intros Hn. unfold Path.segments. rewrite split_join_names by done.
  destruct names as [|x l]; [done |].
  by apply filter_nonempty_names.
Qed.

(** [path.resolve] of one absolute path that is already normal. *)
Lemma resolve_absolute pcwd names :
  Forall isName names ->
  Path.resolve pcwd ["/" +:+ Str.join "/" names] = "/" +:+ Str.join "/" names.
Proof.
  intros Hn. unfold Path.resolve. simpl.
  rewrite normalizeString_clean.
  - rewrite segments_slash, segments_app, segments_join by done.
    by rewrite app_nil_r.
  - apply isClean_slash, isClean_app; [by apply isClean_join | apply isClean_nil].
Qed.

(** [path.resolve] of one relative path made of names, in a normal working
    directory. *)
Lemma resolve_relative cwdNames names :
  Forall isName cwdNames -> Forall isName names -> names <> [] ->
  Path.resolve ("/" +:+ Str.join "/" cwdNames) [Str.join "/" names] =
  "/" +:+ Str.join "/" (cwdNames ++ names).
Proof.
  intros Hc Hn Hne. unfold Path.resolve. simpl.
  assert (Forall isSegment names) as Hs.
  { eapply Forall_impl; [exact Hn |]. by intros s [? _]. }
  rewrite join_truthy, join_relative by done. simpl.
  rewrite normalizeString_clean.
  - rewrite segments_slash, !segments_app, !segments_join by done.
    by rewrite app_nil_r.
  - apply isClean_slash.
    repeat apply isClean_app; auto using isClean_nil, isClean_join.
Qed.

Lemma dropCommon_prefix l names :
  Path.dropCommon l (l ++ names) = ([], names).
Proof.
  induction l as [|x l IH]; simpl; [by destruct names |].
  by rewrite String.eqb_refl.
Qed.

Lemma join_app names1 names2 :
  names1 <> [] -> names2 <> [] ->
  Str.join "/" (names1 ++ names2) =
  Str.join "/" names1 +:+ "/" +:+ Str.join "/" names2.
Proof.
  intros H1 H2. induction names1 as [|x l IH]; [done |].
  destruct l as [|y l].
  - simpl. by destruct names2.
  - change (Str.join "/" ((x :: y :: l) ++ names2))
      with (x +:+ "/" +:+ Str.join "/" ((y :: l) ++ names2)).
    rewrite IH by done.
    change (Str.join "/" (x :: y :: l))
      with (x +:+ "/" +:+ Str.join "/" (y :: l)).
    by rewrite !append_assoc.
Qed.

Lemma absolute_inj names1 names2 :
  Forall isName names1 -> Forall isName names2 ->
  "/" +:+ Str.join "/" names1 = "/" +:+ Str.join "/" names2 ->
  names1 = names2.
Proof.
  intros H1 H2 [= E].
  by rewrite <- (segments_join names1), <- (segments_join names2), E.
Qed.

(** [path.relative] from a normal directory to a path below it. *)
Lemma relative_below pcwd rootNames names :
  Forall isName rootNames -> Forall isName names -> names <> [] ->
  Path.relative pcwd ("/" +:+ Str.join "/" rootNames)
    ("/" +:+ Str.join "/" (rootNames ++ names)) = Str.join "/" names.
Proof.
  intros Hr Hn Hne.
  assert (Forall isName (rootNames ++ names)) as Hrn by by apply Forall_app_2.
  assert (("/" +:+ Str.join "/" rootNames =?
           "/" +:+ Str.join "/" (rootNames ++ names))%string = false) as Eb.
  { apply String.eqb_neq. intros E%absolute_inj; [| done | done].
    apply (f_equal length) in E. rewrite length_app in E.
    destruct names; [done |]. simpl in E. lia. }
  unfold Path.relative. rewrite Eb, !resolve_absolute, Eb by done.
  change ("/" +:+ ?s) with (String "/" s).
  rewrite !segments_slash, !segments_join by done.
  by rewrite dropCommon_prefix.
Qed.

Lemma relative_below_relative cwdNames srcNames names :
  Forall isName cwdNames -> Forall isName srcNames -> Forall isName names ->
  names <> [] ->
  Path.relative ("/" +:+ Str.join "/" cwdNames)
    ("/" +:+ Str.join "/" (cwdNames ++ srcNames))
    (Str.join "/" (srcNames ++ names)) = Str.join "/" names.
Proof.
  intros Hc Hs Hn Hne.
  assert (Forall isName (srcNames ++ names)) as Hsn by by apply Forall_app_2.
  assert (Forall isName (cwdNames ++ srcNames)) as Hcs by by apply Forall_app_2.
  assert (srcNames ++ names <> []) as Hne' by by destruct srcNames, names.
  assert (Forall isName ((cwdNames ++ srcNames) ++ names)) as Hall
    by by apply Forall_app_2.
  assert (("/" +:+ Str.join "/" (cwdNames ++ srcNames) =?
           "/" +:+ Str.join "/" ((cwdNames ++ srcNames) ++ names))%string
          = false) as Eb.
  { apply String.eqb_neq. intros E%absolute_inj; [| done | done].
    apply (f_equal length) in E. rewrite !length_app in E.
    destruct names; [done |]. simpl in E. lia. }
  unfold Path.relative.
  assert (("/" +:+ Str.join "/" (cwdNames ++ srcNames) =?
           Str.join "/" (srcNames ++ names))%string = false) as ->.
  { apply String.eqb_neq. intros E.
    assert (Forall isSegment (srcNames ++ names)) as Hseg.
    { eapply Forall_impl; [exact Hsn |]. by intros s [? _]. }
    pose proof (join_relative _ Hseg) as Hrel. by rewrite <- E in Hrel. }
  rewrite resolve_absolute, resolve_relative by done.
  rewrite app_assoc, Eb.
  change ("/" +:+ ?s) with (String "/" s).
  rewrite !segments_slash, !segments_join by done.
  by rewrite dropCommon_prefix.
Qed.

(** A path below a normal source root, given absolute or relative to the
    working directory of the process. *)
Lemma underSourceRoot_absolute h buildConfig rootNames names :
  Forall isName rootNames -> Forall isName names -> names <> [] ->
  sourceRoot h buildConfig = "/" +:+ Str.join "/" rootNames ->
  underSourceRoot h buildConfig
    ("/" +:+ Str.join "/" (rootNames ++ names)) names.
Proof.
  intros Hr Hn Hne Hroot. split; [| split; [done |]].
  - eapply Forall_impl; [exact Hn |]. by intros s [? _].
  - fold (sourceRoot h buildConfig). rewrite Hroot.
    by apply relative_below.
Qed.

Lemma underSourceRoot_relative h buildConfig cwdNames srcNames names :
  Forall isName cwdNames -> Forall isName srcNames -> Forall isName names ->
  names <> [] ->
  process_cwd h = "/" +:+ Str.join "/" cwdNames ->
  sourceRoot h buildConfig = "/" +:+ Str.join "/" (cwdNames ++ srcNames) ->
  underSourceRoot h buildConfig (Str.join "/" (srcNames ++ names)) names.
Proof.
  intros Hc Hs Hn Hne Hcwd Hroot. split; [| split; [done |]].
  - eapply Forall_impl; [exact Hn |]. by intros s [? _].
  - fold (sourceRoot h buildConfig). rewrite Hroot, Hcwd.
    by apply relative_below_relative.
Qed.

End RelativeFacts.

(** ** The path model on the examples of Node's documentation *)

Module PathExamples.

Example parse_file :
  Path.parse "/home/user/dir/file.txt" =
  Path.mkParsedPath "/" "/home/user/dir" "file.txt" ".txt" "file".
Proof. reflexivity. Qed.

Example parse_root : Path.parse "/" = Path.mkParsedPath "/" "/" "" "" "".
Proof. reflexivity. Qed.

Example parse_dotfile :
  Path.parse ".bashrc" = Path.mkParsedPath "" "" ".bashrc" "" ".bashrc".
Proof. reflexivity. Qed.

Example parse_dotdot :
  Path.parse "a/.." = Path.mkParsedPath "" "a" ".." "" "..".
Proof. reflexivity. Qed.

Example parse_trailing_slash :
  Path.parse "/a/" = Path.mkParsedPath "/" "/" "a" "" "a".
Proof. reflexivity. Qed.

Example parse_trailing_dot :
  Path.parse "a.." = Path.mkParsedPath "" "" "a.." "." "a.".
Proof. reflexivity. Qed.

Example parse_dotted_directory :
  Path.parse "foo.bar" = Path.mkParsedPath "" "" "foo.bar" ".bar" "foo".
Proof. reflexivity. Qed.

Example normalize_dots :
  Path.normalize "/foo/bar//baz/asdf/quux/.." = "/foo/bar/baz/asdf".
Proof. reflexivity. Qed.

Example normalize_above : Path.normalize "./a/../../b/" = "../b/".
Proof. reflexivity. Qed.

Example normalize_empty : Path.normalize "" = ".".
Proof. reflexivity. Qed.

Example resolve_relative_arguments :
  Path.resolve "/home/me"
    ["wwwroot"; "static_files/png/"; "../gif/image.gif"] =
  "/home/me/wwwroot/static_files/gif/image.gif".
Proof. reflexivity. Qed.

Example resolve_absolute_argument :
  Path.resolve "/home/me" ["/foo/bar"; "./baz"] = "/foo/bar/baz".
Proof. reflexivity. Qed.

Example relative_siblings :
  Path.relative "/home/me" "/data/orandea/test/aaa" "/data/orandea/impl/bbb" =
  "../../impl/bbb".
Proof. reflexivity. Qed.

Example relative_from_root : Path.relative "/home/me" "/" "/a" = "a".
Proof. reflexivity. Qed.

Example fnRegExp_examples :
  RegExp.test fnRegExp "hello.ts" = true /\
  RegExp.test fnRegExp "a.b.jsx" = true /\
  RegExp.test fnRegExp "index.ts" = true /\
  RegExp.test fnRegExp ".ts" = false /\
  RegExp.test fnRegExp "README.md" = false /\
  RegExp.test fnRegExp "hello.tsxx" = false.
Proof. repeat split; reflexivity. Qed.

Example indexRegExp_examples :
  RegExp.test indexRegExp "index.tsx" = true /\
  RegExp.test indexRegExp "index.mjs" = false /\
  RegExp.test indexRegExp "myindex.ts" = false.
Proof. repeat split; reflexivity. Qed.

End PathExamples.

(** ** The path classifier *)

Section Classifier.
Import RegExpFacts PathFacts.
Variable h : Host.
Variable buildConfig : FiremynaBuildConfig.

Lemma parseFunction_path functionPath fn :
  parseFunction h buildConfig functionPath = Some fn ->
  fn_path fn = Path.relative (process_cwd h) (process_cwd h) functionPath.
Proof.
  unfold parseFunction. intros H.
  repeat match type of H with
         | (if ?b then _ else _) = _ => destruct b
         end; by simplify_eq.
Qed.

Lemma parseFunction_name functionPath segments :
  underSourceRoot h buildConfig functionPath segments ->
  forall name,
    fn_name <$> parseFunction h buildConfig functionPath = Some name <->
    flatFunction segments name \/ indexFunction segments name.
Proof.
  intros (Hseg & Hne & Hrel) name.
  unfold parseFunction. rewrite Hrel. clear Hrel.
  revert Hseg Hne.
  induction segments as [|b l _] using rev_ind; [congruence |]. intros Hseg _.
  apply Forall_app in Hseg as [Hl Hb%Forall_inv].
  rewrite parse_join by done. simpl.
  revert Hl. induction l as [|d l' _] using rev_ind; intros Hl.
  - (* a flat file *)
    simpl. destruct (RegExp.test fnRegExp b) eqn:Ht; simpl.
    + pose proof Ht as (stem & ext & -> & Hs & Hlt & He)%test_fnRegExp.
      rewrite splitExt_script by done. simpl. split.
      * intros [= <-]. left. by exists ext.
      * intros [(ext' & [= E] & He' & Hs' & _) | (base & [=] & _)].
        pose proof (splitExt_script name ext' Hs' He') as E2.
        rewrite <- E, splitExt_script in E2 by done. by simplify_eq.
    + split; [done |].
      intros [(ext & [= ->] & He & Hs & Hlt) | (base & [=] & _)].
      assert (RegExp.test fnRegExp (name +:+ ext) = true) as Ht'
        by (apply test_fnRegExp; exists name, ext; done).
      congruence.
  - (* below a directory *)
    apply Forall_app in Hl as [Hl' Hd%Forall_inv].
    rewrite join_truthy by (by apply Forall_app, conj, Forall_singleton || by destruct l').
    rewrite parse_join by done. simpl.
    destruct l' as [|x l'].
    + simpl. destruct (RegExp.test indexRegExp b) eqn:Ht; simpl.
      * apply test_indexRegExp in Ht. split.
        -- intros [= <-]. right. by exists b.
        -- by intros [(ext & [=] & _) | (base & [= -> ->] & _)].
      * split; [done |].
        intros [(ext & [=] & _) | (base & [= -> ->] & Hb')].
        apply test_indexRegExp in Hb'. congruence.
    + rewrite join_truthy by (done || by destruct l'). simpl. split; [done |].
      intros [(ext & E & _) | (base & E & _)];
        apply (f_equal length) in E; simpl in E;
        rewrite !length_app in E; simpl in E; lia.
Qed.

End Classifier.

Lemma parseFunction_None_iff (h : Host) (buildConfig : FiremynaBuildConfig)
    (functionPath : string) :
  parseFunction h buildConfig functionPath = None <->
  fn_name <$> parseFunction h buildConfig functionPath = None.
Proof. by destruct (parseFunction h buildConfig functionPath). Qed.

(** C1, as the code has it: for a path under the function source root,
    [parseFunction] yields an identity named by the stem for a flat file
    whose base name matches the function-file pattern (a non-empty stem
    without line terminator, then one of .js/.ts/.jsx/.tsx; the root index
    file is not excluded), an identity named by the directory for an index
    file one level below the root, and none for every other path.  The
    identity carries the path relative to the process working directory. *)
Theorem parseFunction_classifies (h : Host) (buildConfig : FiremynaBuildConfig)
    (functionPath : string) (segments : list string) :
  underSourceRoot h buildConfig functionPath segments ->
  (forall name,
     parseFunction h buildConfig functionPath =
       Some (mkFunction
               (Path.relative (process_cwd h) (process_cwd h) functionPath)
               name) <->
     flatFunction segments name \/ indexFunction segments name) /\
  (parseFunction h buildConfig functionPath = None <->
   forall name, ~ (flatFunction segments name \/ indexFunction segments name)).
Proof.
  intros Hu. pose proof (parseFunction_name h buildConfig _ _ Hu) as Hn.
  split.
  - intros name. rewrite <- Hn. split.
    + by intros ->.
    + destruct (parseFunction h buildConfig functionPath) as [fn|] eqn:E;
        [| done].
      apply parseFunction_path in E. destruct fn as [p n]. simpl in *.
      by intros [= ->]; subst.
  - rewrite parseFunction_None_iff. split.
    + intros E name Hc. apply Hn in Hc. congruence.
    + intros Hnone.
      destruct (fn_name <$> parseFunction h buildConfig functionPath)
        as [n|] eqn:E; [| done].
      destruct (Hn n) as [Hc _]. exfalso. by apply (Hnone n), Hc.
Qed.

Lemma parseFunction_classifies_witness :
  parseFunction Sample.host0 Sample.buildConfig0 "functions/greet/index.ts" =
  Some (mkFunction "functions/greet/index.ts" "greet").
Proof.
  apply (parseFunction_classifies Sample.host0 Sample.buildConfig0
           "functions/greet/index.ts" ["greet"; "index.ts"]).
  - split; [| split; [done | reflexivity]].
    repeat constructor; done.
  - right. exists "index.ts". split; [done |].
    unfold indexFileNames. set_solver.
Defined.

(** C1, as the specification words it, fails on the index file of the
    source root: [index.ts] there is classified as the function [index]. *)
Lemma parseFunction_root_index_counterexample :
  underSourceRoot Sample.host0 Sample.buildConfig0 "functions/index.ts"
    ["index.ts"] /\
  parseFunction Sample.host0 Sample.buildConfig0 "functions/index.ts" =
    Some (mkFunction "functions/index.ts" "index") /\
  ~ (claimedFlatFunction ["index.ts"] "index" \/
     indexFunction ["index.ts"] "index").
Proof.
  split; [| split].
  - split; [| split; [done | reflexivity]]. repeat constructor; done.
  - reflexivity.
  - intros [(ext & [= E] & _ & _ & Hn) | (base & [=] & _)].
    apply Hn. rewrite <- E. unfold indexFileNames. set_solver.
Qed.

(** ** The index generator *)

Module IndexFacts.

Lemma all_app p a b : Str.all p (a +:+ b) = Str.all p a && Str.all p b.
Proof.
  induction a as [|c a IH]; simpl; [done |]. by rewrite IH, andb_assoc.
Qed.

Lemma exportLine_noLineFeed fn :
  noLineFeed (fn_name fn) = true -> noLineFeed (exportLine fn) = true.
Proof.
  intros Hn. unfold exportLine, noLineFeed in *.
  rewrite !all_app, Hn. reflexivity.
Qed.

End IndexFacts.



(** ** The inclusion policy *)

Module PolicyFacts.

Lemma isInitPath_iff buildConfig path :
  isInitPath (functionsInitPath (config buildConfig)) path = true <->
  isConfiguredInitPath buildConfig path.
Proof.
  unfold isInitPath, isConfiguredInitPath.
  destruct (functionsInitPath (config buildConfig)) as [init|].
  - rewrite andb_true_iff, String.eqb_eq. split.
    + intros [Ht Hn]. exists init. by destruct init.
    + intros (i & [= <-] & Hne & Hn). by destruct init.
  - split; [done | by intros (i & [=] & _)].
Qed.

Lemma find_ignore_iff buildConfig path :
  match functionsIgnorePaths (config buildConfig) with
  | Some patterns =>
      match List.find (fun regex : IgnorePattern => regex path) patterns with
      | Some _ => true
      | None => false
      end
  | None => false
  end = true <-> matchesIgnorePattern buildConfig path.
Proof.
  unfold matchesIgnorePattern.
  destruct (functionsIgnorePaths (config buildConfig)) as [patterns|].
  - destruct (List.find _ patterns) as [r|] eqn:E.
    + apply List.find_some in E as [Hin Hr].
      split; [| done]. intros _. exists patterns, r.
      by rewrite list_elem_of_In.
    + split; [done |]. intros (ps & r & [= <-] & Hin & Hr).
      apply list_elem_of_In in Hin.
      pose proof (List.find_none _ _ E r Hin) as Hf. simpl in Hf. congruence.
  - split; [done | by intros (ps & r & [=] & _)].
Qed.

Lemma only_iff buildConfig name :
  match onlyFunctions (config buildConfig) with
  | None => true
  | Some only => existsb (String.eqb name) only
  end = true <-> allowedName buildConfig name.
Proof.
  unfold allowedName.
  destruct (onlyFunctions (config buildConfig)) as [only|].
  - rewrite existsb_exists. split.
    + intros (x & Hin & ->%String.eqb_eq) o [= <-]. by apply list_elem_of_In.
    + intros H. exists name. split; [| apply String.eqb_refl].
      by apply list_elem_of_In, H.
  - split; [done | by intros _].
Qed.

End PolicyFacts.



(** ** The function registry *)

Module RegistryFacts.

Lemma Promise_all_rejected {A : Type} (ps : list (promise A)) :
  isRejected (Promise_all ps) = true <->
  Exists (fun p => isRejected p = true) ps.
Proof.
  induction ps as [|p ps IH]; simpl.
  - split; [done | by intros H%Exists_nil].
  - rewrite Exists_cons, <- IH.
    destruct p as [a|e]; simpl.
    + destruct (Promise_all ps); simpl; intuition congruence.
    + intuition.
Qed.

Lemma Promise_all_fulfilled {A : Type} (ps : list (promise A)) :
  Forall (fun p => isRejected p = false) ps ->
  exists l, Promise_all ps = Fulfilled l /\ ps = map Fulfilled l.
Proof.
  induction 1 as [|p ps Hp _ (l & E & ->)]; simpl.
  - by exists [].
  - destruct p as [a|e]; [| done]. rewrite E. by exists (a :: l).
Qed.

Lemma findFunctionPath_rejected h c path :
  isRejected (findFunctionPath h c path) = true <->
  isRejected (stat_isDirectory h path) = true \/
  (stat_isDirectory h path = Fulfilled true /\
   isRejected (readdir h path) = true).
Proof.
  unfold findFunctionPath.
  destruct (stat_isDirectory h path) as [[|]|e]; simpl.
  - destruct (readdir h path) as [files|e]; simpl.
    + destruct (List.find _ files); simpl; intuition congruence.
    + intuition.
  - destruct (RegExp.test fnRegExp path); simpl; intuition congruence.
  - intuition.
Qed.

Lemma listFunctionsItem_rejected h buildConfig itemPath :
  isRejected (listFunctionsItem h buildConfig itemPath) = true <->
  candidateFails h buildConfig itemPath.
Proof.
  unfold candidateFails.
  rewrite <- (findFunctionPath_rejected h (cwd buildConfig)).
  unfold listFunctionsItem, await.
  destruct (findFunctionPath h (cwd buildConfig) _) as [[p|]|e]; simpl;
    [| tauto | tauto].
  destruct (negb (Str.truthy p)); [tauto |].
  destruct (includedFunction buildConfig _); tauto.
Qed.

End RegistryFacts.

(** C4, as the code has it: once the source root is listed,
    [listFunctions] fails as a whole exactly when the [stat] or the
    [readdir] of some candidate fails; when none fails it returns the
    functions of all candidates in listing order. *)
Theorem listFunctions_candidate_failure (h : Host)
    (buildConfig : FiremynaBuildConfig) (dir : list string) :
  readdir h (sourceRoot h buildConfig) = Fulfilled dir ->
  (isRejected (listFunctions h buildConfig) = true <->
   exists itemPath, itemPath ∈ dir /\ candidateFails h buildConfig itemPath) /\
  ((forall itemPath, itemPath ∈ dir -> ~ candidateFails h buildConfig itemPath) ->
   exists items,
     map (listFunctionsItem h buildConfig) dir = map Fulfilled items /\
     listFunctions h buildConfig = Fulfilled (sweep items)).
Proof.
  intros Hdir. unfold listFunctions. fold (sourceRoot h buildConfig).
  rewrite Hdir. simpl. split.
  - transitivity
      (isRejected (Promise_all (map (listFunctionsItem h buildConfig) dir))
       = true).
    { by destruct (Promise_all _). }
    rewrite RegistryFacts.Promise_all_rejected, Exists_exists. split.
    + intros (p & (item & -> & Hin)%list_elem_of_fmap & Hp).
      exists item. by rewrite <- RegistryFacts.listFunctionsItem_rejected.
    + intros (item & Hin & Hf).
      exists (listFunctionsItem h buildConfig item). split.
      * apply list_elem_of_fmap. by exists item.
      * by apply RegistryFacts.listFunctionsItem_rejected.
  - intros Hok.
    destruct (RegistryFacts.Promise_all_fulfilled
                (map (listFunctionsItem h buildConfig) dir))
      as (items & E & Hmap).
    { apply Forall_forall. intros p (item & -> & Hin)%list_elem_of_fmap.
      apply not_true_iff_false.
      rewrite RegistryFacts.listFunctionsItem_rejected. by apply Hok. }
    exists items. by rewrite E.
Qed.

Lemma listFunctions_candidate_failure_witness :
  isRejected (listFunctions Sample.host2 Sample.buildConfig0) = true.
Proof.
  apply (listFunctions_candidate_failure Sample.host2 Sample.buildConfig0
           ["hello.ts"; "broken"; "greet"]).
  - reflexivity.
  - exists "broken". split; [set_solver | by left].
Defined.

(** C4, as the specification words it, fails: with one entry that cannot
    be stat-ed among two readable candidates, the scan is rejected and the
    functions of the remaining candidates are not returned. *)
Lemma listFunctions_skip_counterexample :
  readdir Sample.host2 (sourceRoot Sample.host2 Sample.buildConfig0) =
    Fulfilled ["hello.ts"; "broken"; "greet"] /\
  candidateFails Sample.host2 Sample.buildConfig0 "broken" /\
  listFunctionsItem Sample.host2 Sample.buildConfig0 "hello.ts" =
    Fulfilled (Some Sample.hello) /\
  listFunctionsItem Sample.host2 Sample.buildConfig0 "greet" =
    Fulfilled (Some Sample.greet) /\
  listFunctions Sample.host2 Sample.buildConfig0 =
    Rejected (FsError "stat" "/proj/functions/broken") /\
  listFunctions Sample.host2 Sample.buildConfig0 <>
    Fulfilled [Sample.hello; Sample.greet].
Proof.
  repeat split; try reflexivity; [by left | discriminate].
Qed.

(** ** The watch subscription *)

Module WatchFacts.

Lemma onAll_no_initial h buildConfig notification :
  Forall (fun m => isInitial m = false) (onAll h buildConfig notification).
Proof.
  destruct notification as [event path]. unfold onAll.
  assert (forall e,
    Forall (fun m => isInitial m = false)
      (if isInitPath (functionsInitPath (config buildConfig)) path
       then [MessageInit e]
       else match parseFunction h buildConfig path with
            | None => []
            | Some fn =>
                if negb (includedFunction buildConfig fn) then []
                else [MessageFunction e fn]
            end)) as Hd.
  { intros e. destruct (isInitPath _ _); [by repeat constructor |].
    destruct (parseFunction h buildConfig path) as [fn|]; [| constructor].
    destruct (negb _); by repeat constructor. }
  destruct event; auto; constructor.
Qed.

End WatchFacts.

(** C7, as the code has it: in a run whose initial [listFunctions]
    succeeds, the messages delivered are one initial message carrying that
    result, followed by the function and init messages, none of which is an
    initial message; in a run whose [listFunctions] fails the returned
    promise is rejected and no message is delivered at all. *)
Theorem watchListFunction_initial_first (h : Host)
    (buildConfig : FiremynaBuildConfig)
    (notifications : list (ChokidarEvent * string)) :
  match listFunctions h buildConfig with
  | Fulfilled functions =>
      exists rest,
        watchListFunction h buildConfig notifications =
          (Fulfilled tt, MessageInitial functions :: rest) /\
        Forall (fun m => isInitial m = false) rest
  | Rejected e =>
      watchListFunction h buildConfig notifications = (Rejected e, [])
  end.
Proof.
  unfold watchListFunction.
  destruct (listFunctions h buildConfig) as [functions|e]; [| done].
  eexists. split; [reflexivity |].
  apply Forall_concat, Forall_map, Forall_forall. intros n _.
  apply WatchFacts.onAll_no_initial.
Qed.

(** C7, as the specification words it, fails for a run whose function
    directory cannot be listed: the returned promise is rejected and the
    callback receives no message, so no initial message either. *)
Lemma watchListFunction_no_initial_counterexample :
  listFunctions Sample.host3 Sample.buildConfig0 =
    Rejected (FsError "scandir" "/proj/functions") /\
  watchListFunction Sample.host3 Sample.buildConfig0 [] =
    (Rejected (FsError "scandir" "/proj/functions"), []) /\
  ~ (exists functions rest,
       snd (watchListFunction Sample.host3 Sample.buildConfig0 []) =
       MessageInitial functions :: rest).
Proof.
  repeat split; try reflexivity. by intros (fns & rest & [=]).
Qed.

(** C10: the code gives one source path two names.  For the directory
    [foo.bar] holding [index.ts], [listFunctions] names the function [foo]
    (the directory entry with its last dot-suffix cut off) while
    [parseFunction] names it [foo.bar] (the directory). *)
Theorem listFunctions_parseFunction_names_differ :
  listFunctions Sample.host0 Sample.buildConfig0 =
    Fulfilled
      [Sample.hello; Sample.greet;
       mkFunction "functions/foo.bar/index.ts" "foo";
       mkFunction "functions/index.ts" "index"] /\
  parseFunction Sample.host0 Sample.buildConfig0 "functions/foo.bar/index.ts" =
    Some (mkFunction "functions/foo.bar/index.ts" "foo.bar").
Proof. split; reflexivity. Qed.

(** ** The module resolver *)

Module ResolveFacts.
Import Resolve.

Lemma existsb_prefixed builtinModules specifier :
  existsb (fun module => Str.startsWith specifier module) builtinModules = true
  <-> builtinPrefixed builtinModules specifier.
Proof.
  rewrite existsb_exists. unfold builtinPrefixed.
  split; intros (m & Hin & Hm); exists m; by rewrite list_elem_of_In in *.
Qed.

Lemma truthyPath_Some r : truthyPath (Some r) = true <-> r <> "".
Proof. destruct r; simpl; split; done. Qed.

End ResolveFacts.

(** C5, as the code has it: the resolver returns the specifier marked
    external and unresolved exactly when the specifier starts with the name
    of a builtin module; otherwise it returns the resolved path, marked
    external exactly when the path contains the text node_modules; and it
    rejects exactly when the specifier starts with no builtin name and
    cannot be resolved, with the resolver's own error if it gave one and
    else with an error naming the specifier and the resolution directory. *)
Theorem onResolve_cases (builtinModules : list string)
    (resolver : Resolve.Resolver) (args : Resolve.OnResolveArgs) :
  let specifier := Resolve.path args in
  let answer := resolver (Resolve.resolveDir args) specifier in
  ((forall resolver',
      Resolve.onResolve builtinModules resolver' args =
      Fulfilled (Resolve.mkResult specifier true)) <->
   builtinPrefixed builtinModules specifier) /\
  (~ builtinPrefixed builtinModules specifier ->
   forall r, Resolve.err answer = None -> Resolve.resolved answer = Some r ->
     r <> "" ->
     Resolve.onResolve builtinModules resolver args =
     Fulfilled (Resolve.mkResult r (Str.includes r "node_modules"))) /\
  (isRejected (Resolve.onResolve builtinModules resolver args) = true <->
   ~ builtinPrefixed builtinModules specifier /\ unresolvable answer) /\
  (~ builtinPrefixed builtinModules specifier ->
   (forall e, Resolve.err answer = Some e ->
      Resolve.onResolve builtinModules resolver args = Rejected e) /\
   (Resolve.err answer = None ->
    truthyPath (Resolve.resolved answer) = false ->
    Resolve.onResolve builtinModules resolver args =
    Rejected
      (Error ("Cannot resolve " +:+ specifier +:+ " at " +:+
              Resolve.resolveDir args)))).
Proof.
  intros specifier answer.
  pose proof (ResolveFacts.existsb_prefixed builtinModules specifier) as Hp.
  unfold Resolve.onResolve. fold specifier. fold answer.
  destruct (existsb _ builtinModules) eqn:Eb.
  - assert (builtinPrefixed builtinModules specifier) as Hb by by apply Hp.
    repeat split; try done; try tauto.
  - assert (~ builtinPrefixed builtinModules specifier) as Hb.
    { intros H%Hp. congruence. }
    repeat split.
    + intros H. specialize (H SampleResolve.failing).
      simpl in H. discriminate.
    + tauto.
    + intros _ r -> Hr Hne. rewrite Hr.
      apply ResolveFacts.truthyPath_Some in Hne. by rewrite Hne.
    + done.
    + unfold unresolvable.
      destruct (Resolve.err answer) as [e|]; [by left |].
      destruct (truthyPath (Resolve.resolved answer)) eqn:Et; simpl.
      * destruct (Resolve.resolved answer); done.
      * by right.
    + unfold unresolvable. intros [_ [He | Hr]].
      * by destruct (Resolve.err answer).
      * destruct (Resolve.err answer); [done |]. by rewrite Hr.
    + by intros e ->.
    + intros -> Hr. by rewrite Hr.
Qed.

Lemma onResolve_cases_witness :
  Resolve.onResolve SampleResolve.builtinModules SampleResolve.resolver
    (Resolve.mkArgs "/proj/functions" "./db") =
  Fulfilled (Resolve.mkResult "/proj/functions/db.ts" false).
Proof.
  apply (onResolve_cases SampleResolve.builtinModules SampleResolve.resolver
           (Resolve.mkArgs "/proj/functions" "./db")).
  - intros (m & Hin & Hm). unfold SampleResolve.builtinModules in Hin.
    repeat (apply elem_of_cons in Hin as [-> | Hin]; [discriminate |]).
    by apply elem_of_nil in Hin.
  - reflexivity.
  - reflexivity.
  - done.
Defined.

(** C5, as the specification words it, fails: [fs-extra] names no builtin
    module, yet it is returned external and unresolved whatever the
    resolver would answer; and a resolved path that merely contains the
    text node_modules, with no such directory above it, is marked
    external. *)
Lemma onResolve_prefix_counterexample :
  ("fs-extra" ∉ SampleResolve.builtinModules) /\
  (forall resolver,
     Resolve.onResolve SampleResolve.builtinModules resolver
       (Resolve.mkArgs "/proj/functions" "fs-extra") =
     Fulfilled (Resolve.mkResult "fs-extra" true)) /\
  Resolve.onResolve SampleResolve.builtinModules SampleResolve.resolver
    (Resolve.mkArgs "/proj/functions" "./node_modules_shim") =
    Fulfilled (Resolve.mkResult "/proj/functions/node_modules_shim.ts" true) /\
  underNodeModules "/proj/functions/node_modules_shim.ts" = false.
Proof.
  repeat split; try reflexivity.
  unfold SampleResolve.builtinModules. intros Hin.
  repeat (apply elem_of_cons in Hin as [[=] | Hin]).
  by apply elem_of_nil in Hin.
Qed.

(** ** Child supervision *)

Module SupervisorFacts.
Import Dev.
Local Arguments live : simpl never.

Lemma indexOf_bounds l child :
  child ∈ l -> (0 <= indexOf l child < Z.of_nat (length l))%Z.
Proof.
  induction l as [|x l IH]; [by intros ?%elem_of_nil |].
  intros Hin. simpl. destruct (Nat.eqb_spec x child) as [-> | Hne]; [lia |].
  apply elem_of_cons in Hin as [-> | Hin]; [done |].
  specialize (IH Hin). destruct (Z.ltb_spec (indexOf l child) 0); lia.
Qed.

Lemma splice_cons {A : Type} (x : A) l (i : Z) :
  (0 <= i)%Z -> splice (x :: l) (i + 1) 1 = x :: splice l i 1.
Proof.
  intros Hi. unfold splice. simpl length.
  destruct (Z.ltb_spec (i + 1) 0); [lia |].
  destruct (Z.ltb_spec i 0); [lia |].
  replace (Z.to_nat (Z.min (i + 1) (Z.of_nat (S (length l)))))
    with (S (Z.to_nat (Z.min i (Z.of_nat (length l))))) by lia.
  reflexivity.
Qed.

Lemma filter_ne_notin (l : list ChildProcess) child :
  child ∉ l -> filter (fun x => x <> child) l = l.
Proof.
  induction l as [|x l IH]; [done |].
  intros Hn. apply not_elem_of_cons in Hn as [Hx Hl].
  rewrite filter_cons_True by done. by rewrite IH.
Qed.

(** Removing a child the way the [exit] listener does. *)
Lemma splice_indexOf l child :
  NoDup l -> child ∈ l ->
  splice l (indexOf l child) 1 = filter (fun x => x <> child) l.
Proof.
  induction 1 as [|x l Hx Hl IH]; [by intros ?%elem_of_nil |].
  intros Hin. simpl. destruct (Nat.eqb_spec x child) as [-> | Hne].
  - rewrite filter_cons_False by (by intros ?).
    rewrite filter_ne_notin by done. unfold splice. simpl. by rewrite drop_0.
  - apply elem_of_cons in Hin as [-> | Hin]; [done |].
    pose proof (indexOf_bounds l child Hin) as Hb.
    destruct (Z.ltb_spec (indexOf l child) 0); [lia |].
    rewrite splice_cons by lia. rewrite filter_cons_True by done.
    by rewrite IH.
Qed.

Lemma live_nil r :
  live r = [] -> forall child, child ∈ spawned r -> child ∈ reported r.
Proof.
  unfold live. intros E child Hin.
  destruct (decide (child ∈ reported r)) as [| Hn]; [done |].
  assert (child ∈ filter (fun c => c ∉ reported r) (spawned r)) as Hf
    by by apply list_elem_of_filter.
  rewrite E in Hf. by apply elem_of_nil in Hf.
Qed.

Lemma exitIfNoChildren_spec s :
  exitIfNoChildren s =
  match children s with
  | [] => mkSupervisor (exiting s) [] (Some 0%Z) (kills s)
  | _ => s
  end.
Proof. unfold exitIfNoChildren. by destruct (children s) eqn:E; rewrite ?E. Qed.

Lemma invariant_boot : invariant boot.
Proof.
  split; simpl; try done; try constructor; by intros ? ?%elem_of_nil.
Qed.

Lemma invariant_step r e r' : invariant r -> step r e r' -> invariant r'.
Proof.
  intros [Hnd Hrep Hch Hdr Hex] Hstep.
  destruct Hstep as [r child Halive Hfresh | r child Hsp Hnr | r signal].
  - (* spawn *)
    unfold handle. rewrite Halive. split; simpl.
    + apply NoDup_app. repeat split; [done | | apply NoDup_singleton].
      intros x Hx ->%list_elem_of_singleton. done.
    + intros c Hc. apply elem_of_app. left. by apply Hrep.
    + intros _. unfold live. simpl. rewrite filter_app, Hch by done.
      f_equal. rewrite filter_cons_True; [done |].
      intros Hc. by apply Hfresh, Hrep.
    + intros _ _. by destruct (children (sup r)).
    + intros status E. congruence.
  - (* a child reports its exit *)
    unfold handle. destruct (exited (sup r)) as [status|] eqn:Ealive.
    + destruct (Hex status eq_refl) as [_ Hall]. by apply Hall in Hsp.
    + assert (child ∈ children (sup r)) as Hin.
      { rewrite Hch by done. by apply list_elem_of_filter. }
      assert (NoDup (children (sup r))) as Hndc.
      { rewrite Hch by done. by apply NoDup_filter. }
      set (r' := mkRun (sup r) (spawned r) (child :: reported r)).
      assert (splice (children (sup r)) (indexOf (children (sup r)) child) 1
              = live r') as Es.
      { rewrite splice_indexOf by done. rewrite Hch by done.
        unfold live. simpl. rewrite list_filter_filter.
        apply list_filter_iff. intros x. rewrite not_elem_of_cons. tauto. }
      pose proof (live_nil r') as Hnil.
      assert (forall c, c ∈ child :: reported r -> c ∈ spawned r) as Hrep'.
      { intros c [-> | Hc]%elem_of_cons; auto. }
      unfold onExit. simpl. rewrite Es.
      destruct (exiting (sup r)) eqn:Eex.
      * rewrite exitIfNoChildren_spec. simpl.
        destruct (live r') as [|x l'] eqn:El.
        -- split; simpl; try done.
           intros status [= <-]. split; [done |]. by apply Hnil.
        -- split; simpl; try done. congruence.
      * split; simpl; try done. congruence.
  - (* a signal *)
    unfold handle. destruct (exited (sup r)) as [status|] eqn:Ealive.
    + split; simpl; try done; rewrite ?Ealive; try done. 
    + unfold onSignal. rewrite exitIfNoChildren_spec. simpl.
      destruct (children (sup r)) as [|x l] eqn:Ec; simpl.
      * split; simpl; try done.
        intros status [= <-]. split; [done |].
        apply live_nil. rewrite <- Hch by done. done.
      * rewrite Ealive. split; simpl; try done; try congruence.
        all: try (intros _; rewrite <- Ec; by apply Hch).
Qed.

Lemma invariant_steps r es r' : invariant r -> steps r es r' -> invariant r'.
Proof.
  intros Hi Hs. induction Hs as [|r e r' es r'' Hstep _ IH]; [done |].
  by apply IH, (invariant_step r e).
Qed.

Lemma invariant_reachable r : reachable r -> invariant r.
Proof.
  intros [es Hs]. apply (invariant_steps boot es); [apply invariant_boot | done].
Qed.

Lemma handle_exiting e s :
  exiting s = true -> exiting (handle e s) = true.
Proof.
  intros He. unfold handle. destruct (exited s); [done |].
  destruct e as [child | child | signal]; simpl.
  - done.
  - unfold onExit. simpl. rewrite He, exitIfNoChildren_spec. simpl.
    by destruct (splice _ _ _).
  - unfold onSignal. rewrite exitIfNoChildren_spec. simpl.
    destruct (children s); simpl; [done |]. by destruct (exited s).
Qed.

Lemma steps_monotone r es r' :
  steps r es r' ->
  (exiting (sup r) = true -> exiting (sup r') = true) /\
  (forall child, child ∈ spawned r -> child ∈ spawned r').
Proof.
  induction 1 as [|r e r' es r'' Hstep _ [IH1 IH2]]; [done |].
  destruct Hstep; simpl in *; split; intros; try apply IH1; try apply IH2;
    try by apply handle_exiting.
  all: try done. apply elem_of_app. by left.
Qed.

Lemma live_nil_iff r :
  live r = [] <-> forall child, child ∈ spawned r -> child ∈ reported r.
Proof.
  split; [apply live_nil |]. intros Hall. unfold live.
  induction (spawned r) as [|x l IH]; [done |].
  rewrite filter_cons_False; [apply IH | by intros Hn; apply Hn, Hall; left].
  intros c Hc. apply Hall. by right.
Qed.

Lemma step_signal_afterSignal r signal :
  exited (sup r) = None -> step r (Received signal) (afterSignal signal r).
Proof.
  intros Ha. pose proof (step_signal r signal) as Hs.
  unfold handle in Hs. by rewrite Ha in Hs.
Qed.

Lemma onSignal_live s signal :
  exited s = None -> children s <> [] ->
  onSignal signal s =
  mkSupervisor true (children s) None
    (kills s ++ map (fun child => (child, signal)) (children s)).
Proof.
  intros Ha Hc. unfold onSignal. rewrite exitIfNoChildren_spec. simpl.
  destruct (children s); [done |]. simpl. by rewrite Ha.
Qed.

End SupervisorFacts.

(** C3: when a termination signal reaches the running supervisor with no
    live child it exits at once with status 0; with live children it
    forwards the signal to each of them and exits, with status 0, only
    after each has reported its exit, and does exit once every child has;
    a further signal received while draining is forwarded to the children
    still live only, never to one that has reported its exit, and leaves
    the supervisor running. *)
Theorem supervisor_shutdown (r : Dev.Run) (signal : Dev.Signal) :
  Dev.reachable r -> Dev.exited (Dev.sup r) = None ->
  (Dev.live r = [] ->
   Dev.exited (Dev.onSignal signal (Dev.sup r)) = Some 0%Z /\
   Dev.kills (Dev.onSignal signal (Dev.sup r)) = Dev.kills (Dev.sup r)) /\
  (Dev.live r <> [] ->
   Dev.exited (Dev.onSignal signal (Dev.sup r)) = None /\
   Dev.kills (Dev.onSignal signal (Dev.sup r)) =
     Dev.kills (Dev.sup r) ++ map (fun child => (child, signal)) (Dev.live r)) /\
  (forall es r', Dev.steps (Dev.afterSignal signal r) es r' ->
     (forall status, Dev.exited (Dev.sup r') = Some status ->
        status = 0%Z /\
        forall child, child ∈ Dev.live r -> child ∈ Dev.reported r') /\
     ((forall child, child ∈ Dev.spawned r' -> child ∈ Dev.reported r') ->
      Dev.exited (Dev.sup r') = Some 0%Z) /\
     (Dev.exited (Dev.sup r') = None ->
      forall signal2,
        Dev.exited (Dev.onSignal signal2 (Dev.sup r')) = None /\
        Dev.kills (Dev.onSignal signal2 (Dev.sup r')) =
          Dev.kills (Dev.sup r') ++
          map (fun child => (child, signal2)) (Dev.live r') /\
        forall child, child ∈ Dev.live r' -> child ∉ Dev.reported r')).
Proof.
  intros Hreach Halive.
  pose proof (SupervisorFacts.invariant_reachable r Hreach) as Hinv.
  pose proof (Dev.inv_children r Hinv Halive) as Hch.
  split; [| split].
  - intros Hl. rewrite <- Hch in Hl.
    unfold Dev.onSignal. rewrite SupervisorFacts.exitIfNoChildren_spec.
    simpl. by rewrite Hl.
  - intros Hl. rewrite <- Hch in *.
    by rewrite SupervisorFacts.onSignal_live.
  - intros es r' Hsteps.
    assert (Dev.invariant (Dev.afterSignal signal r)) as Hinv1.
    { eapply SupervisorFacts.invariant_step; [exact Hinv |].
      by apply SupervisorFacts.step_signal_afterSignal. }
    pose proof (SupervisorFacts.invariant_steps _ _ _ Hinv1 Hsteps) as Hinv'.
    destruct (SupervisorFacts.steps_monotone _ _ _ Hsteps) as [Hex Hsp].
    assert (Dev.exiting (Dev.sup r') = true) as Hexiting.
    { apply Hex. simpl. unfold Dev.onSignal.
      rewrite SupervisorFacts.exitIfNoChildren_spec. simpl.
      destruct (Dev.children (Dev.sup r)); simpl; [done |].
      by destruct (Dev.exited (Dev.sup r)). }
    split; [| split].
    + intros status Hs.
      destruct (Dev.inv_exited r' Hinv' status Hs) as [-> Hall].
      split; [done |]. intros child Hc. apply Hall, Hsp. simpl.
      unfold Dev.live in Hc. by apply list_elem_of_filter in Hc as [_ Hc].
    + intros Hall. apply SupervisorFacts.live_nil_iff in Hall.
      destruct (Dev.exited (Dev.sup r')) as [status|] eqn:Es.
      * by destruct (Dev.inv_exited r' Hinv' status Es) as [-> _].
      * exfalso. apply (Dev.inv_draining r' Hinv' Es Hexiting).
        by rewrite (Dev.inv_children r' Hinv' Es).
    + intros Ha signal2.
      pose proof (Dev.inv_children r' Hinv' Ha) as Hch'.
      pose proof (Dev.inv_draining r' Hinv' Ha Hexiting) as Hne.
      rewrite SupervisorFacts.onSignal_live by done. simpl.
      rewrite Hch'. repeat split.
      intros child Hc. unfold Dev.live in Hc.
      by apply list_elem_of_filter in Hc as [Hc _].
Qed.

Lemma run2_reachable : Dev.reachable Dev.run2.
Proof.
  exists [Dev.Spawned 1; Dev.Spawned 2].
  eapply Dev.steps_cons;
    [apply Dev.step_spawn; [done | apply not_elem_of_nil] |].
  eapply Dev.steps_cons;
    [apply Dev.step_spawn;
     [done | by intros [? | ?%elem_of_nil]%elem_of_cons] |].
  apply Dev.steps_nil.
Qed.

Lemma supervisor_shutdown_witness :
  Dev.exited (Dev.onSignal Dev.SIGINT (Dev.sup Dev.run2)) = None /\
  Dev.kills (Dev.onSignal Dev.SIGINT (Dev.sup Dev.run2)) =
    [(1, Dev.SIGINT); (2, Dev.SIGINT)].
Proof.
  destruct (supervisor_shutdown Dev.run2 Dev.SIGINT run2_reachable eq_refl)
    as (_ & H & _).
  apply H. done.
Defined.


(** ** The consumer of the watch messages *)

Section ConsumerFacts.

Variable h : Host.
Variable buildConfig : FiremynaBuildConfig.
Variable compile : Compiler.
Variable Deps : Type.
Variable onBuild : string -> Metafile -> Deps -> Deps.
Variable onStop : string -> Deps -> Deps.
Variable writeEsbuildFile : option BuildResult -> Disk -> promise unit * Disk.

Local Abbreviation onMessage :=
  (Dev.onMessage h buildConfig compile Deps onBuild onStop writeEsbuildFile).
Local Abbreviation startBuilding :=
  (Dev.startBuilding h buildConfig compile Deps onBuild writeEsbuildFile).
Local Abbreviation startBuildingInit :=
  (Dev.startBuildingInit h buildConfig compile Deps onBuild writeEsbuildFile).
Local Abbreviation buildIndex :=
  (Dev.buildIndex h buildConfig compile Deps onBuild writeEsbuildFile).
Local Abbreviation incrementalBuild := (Dev.incrementalBuild h buildConfig compile Deps).
Local Abbreviation incrementalBuildInit :=
  (Dev.incrementalBuildInit h buildConfig compile Deps).
Local Abbreviation rebuildOf := (Dev.rebuildOf compile Deps).
Local Abbreviation onDepsChange :=
  (Dev.onDepsChange compile Deps onBuild writeEsbuildFile).

Local Arguments Dev.noteBuild : simpl never.
Local Arguments Dev.rebuildOf : simpl never.
Local Arguments Dev.incrementalBuild : simpl never.
Local Arguments Dev.incrementalBuildInit : simpl never.
Local Arguments Dev.startBuilding : simpl never.
Local Arguments Dev.startBuildingInit : simpl never.
Local Arguments Dev.buildIndex : simpl never.
Local Arguments esbuild_build : simpl never.
Local Arguments buildFile : simpl never.

Lemma esbuild_build_rejected options disk e :
  fst (esbuild_build compile options disk) = Rejected e ->
  esbuild_build compile options disk = (Rejected e, disk).
Proof.
  unfold esbuild_build.
  destruct (compile options disk) as [[outs meta]|e']; simpl; congruence.
Qed.

Lemma keeps_ret {A : Type} (a : A) : Dev.keeps (Dev.ret Deps a).
Proof. by intros st. Qed.

Lemma keeps_bind {A B : Type} (m : Dev.Async Deps A) (k : A -> Dev.Async Deps B) :
  Dev.keeps m -> (forall a, Dev.keeps (k a)) -> Dev.keeps (Dev.bind Deps m k).
Proof.
  intros Hm Hk st. unfold Dev.bind. specialize (Hm st).
  destruct (m st) as [[a|e] st']; simpl in *; [| done].
  destruct (Hk a st') as (-> & -> & ->). done.
Qed.

Lemma keeps_withDisk {A : Type} (f : Disk -> promise A * Disk) :
  Dev.keeps (Dev.withDisk Deps f).
Proof. intros st. unfold Dev.withDisk. by destruct (f (Dev.disk Deps st)). Qed.

Lemma keeps_withDeps f : Dev.keeps (Dev.withDeps Deps f).
Proof. by intros st. Qed.

Lemma keeps_get {A : Type} (f : Dev.DevState Deps -> A) : Dev.keeps (Dev.get Deps f).
Proof. by intros st. Qed.

Lemma keeps_setInitBuild b : Dev.keeps (Dev.setInitBuild Deps b).
Proof. by intros st. Qed.

Lemma keeps_launch label : Dev.keeps (Dev.launch Deps label).
Proof. by intros st. Qed.

Lemma keeps_detached {A : Type} (m : Dev.Async Deps A) :
  Dev.keeps m -> Dev.keeps (Dev.detached Deps m).
Proof. intros Hm st. apply Hm. Qed.

Lemma keeps_allOf tasks :
  Forall Dev.keeps tasks -> Dev.keeps (Dev.allOf Deps tasks).
Proof.
  induction 1 as [|t ts Ht _ IH]; intros st; simpl; [done |].
  specialize (Ht st). destruct (t st) as [r st']. simpl in Ht.
  specialize (IH st'). destruct (Dev.allOf Deps ts st') as [rs st''].
  simpl in *. destruct Ht as (<- & <- & <-). done.
Qed.

Lemma keeps_noteBuild file build : Dev.keeps (Dev.noteBuild Deps onBuild file build).
Proof.
  unfold Dev.noteBuild. destruct build as [b|]; [| apply keeps_ret].
  destruct (metafile b); [apply keeps_withDeps | apply keeps_ret].
Qed.

Lemma keeps_rebuildOf build : Dev.keeps (rebuildOf build).
Proof.
  unfold Dev.rebuildOf. destruct build as [b|]; [| apply keeps_ret].
  destruct (rebuild b); [| by intros st].
  apply keeps_bind; [apply keeps_withDisk | intros; apply keeps_ret].
Qed.

Lemma keeps_incrementalBuild fn : Dev.keeps (incrementalBuild fn).
Proof. apply keeps_withDisk. Qed.

Lemma keeps_incrementalBuildInit : Dev.keeps incrementalBuildInit.
Proof.
  unfold Dev.incrementalBuildInit.
  destruct (functionsInitPath (config buildConfig)); [| apply keeps_ret].
  destruct (negb _); [apply keeps_ret |].
  apply keeps_bind; [apply keeps_withDisk | intros; apply keeps_ret].
Qed.

Lemma keeps_startBuildingInit : Dev.keeps startBuildingInit.
Proof.
  unfold Dev.startBuildingInit. destruct (negb _); [apply keeps_ret |].
  apply keeps_bind; [apply keeps_incrementalBuildInit |]. intros b.
  apply keeps_bind; [apply keeps_setInitBuild |]. intros _.
  apply keeps_bind; [apply keeps_noteBuild |]. intros _.
  destruct b; [apply keeps_withDisk | apply keeps_ret].
Qed.

Lemma keeps_buildIndex : Dev.keeps buildIndex.
Proof.
  unfold Dev.buildIndex.
  apply keeps_bind; [apply keeps_get |]. intros fns.
  apply keeps_bind; [apply keeps_withDisk |]. intros build.
  apply keeps_bind; [apply keeps_noteBuild |]. intros _.
  apply keeps_withDisk.
Qed.

Lemma bind_fulfilled {A B : Type} (m : Dev.Async Deps A)
    (k : A -> Dev.Async Deps B) st a st' :
  m st = (Fulfilled a, st') -> Dev.bind Deps m k st = k a st'.
Proof. unfold Dev.bind. by intros ->. Qed.

Lemma bind_rejected {A B : Type} (m : Dev.Async Deps A)
    (k : A -> Dev.Async Deps B) st e st' :
  m st = (Rejected e, st') -> Dev.bind Deps m k st = (Rejected e, st').
Proof. unfold Dev.bind. by intros ->. Qed.

Lemma noteBuild_fulfils file build st :
  exists st',
    Dev.noteBuild Deps onBuild file build st = (Fulfilled tt, st') /\
    Dev.functions Deps st' = Dev.functions Deps st /\
    Dev.builds Deps st' = Dev.builds Deps st /\
    Dev.disposed Deps st' = Dev.disposed Deps st.
Proof.
  unfold Dev.noteBuild. destruct build as [b|]; [| by eexists].
  destruct (metafile b); by eexists.
Qed.

(** [startBuilding] registers the unit once the incremental build is there,
    and only then. *)
Lemma startBuilding_spec fn st :
  Dev.functions Deps (snd (startBuilding fn st)) = Dev.functions Deps st /\
  Dev.disposed Deps (snd (startBuilding fn st)) = Dev.disposed Deps st /\
  match fst (incrementalBuild fn st) with
  | Fulfilled build =>
      Dev.builds Deps (snd (startBuilding fn st)) =
      <[fn_name fn := build]> (Dev.builds Deps st)
  | Rejected e =>
      Dev.builds Deps (snd (startBuilding fn st)) = Dev.builds Deps st /\
      fst (startBuilding fn st) = Rejected e
  end.
Proof.
  unfold Dev.startBuilding.
  pose proof (keeps_incrementalBuild fn st) as (Hf & Hb & Hd).
  destruct (incrementalBuild fn st) as [[build|e] st1] eqn:E1; simpl in *.
  - rewrite (bind_fulfilled _ _ _ _ _ E1).
    destruct (noteBuild_fulfils (fn_name fn) (Some build) st1)
      as (st2 & E2 & Hf2 & Hb2 & Hd2).
    rewrite (bind_fulfilled _ _ _ _ _ E2).
    unfold Dev.bind, Dev.setBuilds, Dev.withDisk. simpl.
    destruct (writeEsbuildFile (Some build) (Dev.disk Deps st2)) as [r d].
    simpl. repeat split; congruence.
  - rewrite (bind_rejected _ _ _ _ _ E1). simpl. by rewrite Hf, Hb, Hd.
Qed.

Lemma bind_spec {A B : Type} (m : Dev.Async Deps A)
    (k : A -> Dev.Async Deps B) st :
  Dev.bind Deps m k st =
  match fst (m st) with
  | Fulfilled a => k a (snd (m st))
  | Rejected e => (Rejected e, snd (m st))
  end.
Proof. unfold Dev.bind. by destruct (m st) as [[a|e] st']. Qed.

Lemma allOf_cons t ts st :
  Dev.allOf Deps (t :: ts) st =
  (match fst (t st) with
   | Rejected e => Rejected e
   | Fulfilled _ => fst (Dev.allOf Deps ts (snd (t st)))
   end,
   snd (Dev.allOf Deps ts (snd (t st)))).
Proof.
  simpl. destruct (t st) as [r st']. simpl.
  by destruct (Dev.allOf Deps ts st') as [rs st''].
Qed.

Local Arguments Dev.allOf : simpl never.

Lemma incrementalBuild_disk fn st st' :
  Dev.disk Deps st' = Dev.disk Deps st ->
  fst (incrementalBuild fn st') = fst (incrementalBuild fn st).
Proof.
  intros E. unfold Dev.incrementalBuild, Dev.withDisk. rewrite E.
  by destruct (buildFile _ _ _ _).
Qed.

(** Starting the builds of a list of functions. *)
Lemma allOf_startBuilding fns st :
  Dev.functions Deps (snd (Dev.allOf Deps (map startBuilding fns) st)) =
    Dev.functions Deps st /\
  (isRejected (fst (Dev.allOf Deps (map startBuilding fns) st)) = false ->
   dom (Dev.builds Deps (snd (Dev.allOf Deps (map startBuilding fns) st))) =
   dom (Dev.builds Deps st) ∪ list_to_set (map fn_name fns)).
Proof.
  revert st. induction fns as [|fn fns IH]; intros st.
  - simpl. split; [done |]. intros _. set_solver.
  - rewrite map_cons, allOf_cons. simpl.
    destruct (startBuilding_spec fn st) as (Hf & _ & Hb).
    destruct (IH (snd (startBuilding fn st))) as [IHf IHb].
    split; [congruence |].
    destruct (fst (startBuilding fn st)) as [[]|e] eqn:Er; [| done].
    intros Hok. rewrite (IHb Hok).
    destruct (fst (incrementalBuild fn st)) as [build|e].
    + rewrite Hb, dom_insert_L. set_solver.
    + destruct Hb as [_ Hb]. congruence.
Qed.

Lemma names_snoc (fns : list FiremynaFunction) fn :
  list_to_set (map fn_name (fns ++ [fn])) =@{gset string}
  list_to_set (map fn_name fns) ∪ {[fn_name fn]}.
Proof. rewrite map_app, list_to_set_app_L. simpl. set_solver. Qed.

Lemma names_filter (fns : list FiremynaFunction) name :
  list_to_set (map fn_name (filter (fun f => fn_name f <> name) fns))
  =@{gset string} list_to_set (map fn_name fns) ∖ {[name]}.
Proof.
  apply set_eq. intros x.
  rewrite elem_of_difference, !elem_of_list_to_set, !list_elem_of_fmap,
    not_elem_of_singleton.
  split.
  - intros (f & -> & [Hf Hin]%list_elem_of_filter). eauto.
  - intros [(f & -> & Hin) Hne]. exists f. split; [done |].
    by apply list_elem_of_filter.
Qed.


Lemma keeps_change_init message :
  (exists fn, message = MessageFunction change fn) \/
  (exists event, message = MessageInit event) ->
  Dev.keeps (onMessage message).
Proof.
  unfold Dev.onMessage. intros [[fn ->] | [event ->]].
  - apply (keeps_bind _ _ (keeps_get _)). intros bs.
    apply (keeps_bind _ _ (keeps_rebuildOf _)). intros b.
    apply keeps_withDisk.
  - destruct event.
    + apply (keeps_bind _ _ keeps_startBuildingInit). intros _.
      apply (keeps_bind _ _ (keeps_get _)). intros [b|];
        [apply keeps_buildIndex | apply keeps_ret].
    + apply (keeps_bind _ _ (keeps_get _)). intros ib.
      apply (keeps_bind _ _ (keeps_rebuildOf _)). intros b.
      destruct ib; [apply keeps_withDisk | apply keeps_ret].
    + apply (keeps_bind _ _ (keeps_setInitBuild _)). intros _.
      apply keeps_withDeps.
Qed.

Lemma onMessage_add fn st :
  let st' := snd (onMessage (MessageFunction add fn) st) in
  Dev.functions Deps st' = Dev.functions Deps st ++ [fn] /\
  match fst (incrementalBuild fn st) with
  | Fulfilled build =>
      Dev.builds Deps st' = <[fn_name fn := build]> (Dev.builds Deps st)
  | Rejected _ => Dev.builds Deps st' = Dev.builds Deps st
  end.
Proof.
  unfold Dev.onMessage. repeat (rewrite bind_spec; simpl).
  set (st1 := Dev.mkDev _ _ _ _ _ _ _ _).
  destruct (startBuilding_spec fn st1) as (Hf & _ & Hb).
  rewrite (incrementalBuild_disk fn st st1) in Hb by done.
  pose proof (keeps_buildIndex (snd (startBuilding fn st1))) as (Hif & Hib & _).
  assert (Dev.functions Deps (snd (startBuilding fn st1)) =
          Dev.functions Deps st ++ [fn]) as Hf' by done.
  assert (match fst (incrementalBuild fn st) with
          | Fulfilled build =>
              Dev.builds Deps (snd (startBuilding fn st1)) =
              <[fn_name fn := build]> (Dev.builds Deps st)
          | Rejected _ =>
              Dev.builds Deps (snd (startBuilding fn st1)) = Dev.builds Deps st
          end) as Hb'.
  { destruct (fst (incrementalBuild fn st)); [done | by destruct Hb]. }
  destruct (fst (startBuilding fn st1)); simpl.
  - by rewrite Hif, Hib.
  - done.
Qed.

Lemma incrementalBuild_incremental fn st build :
  fst (incrementalBuild fn st) = Fulfilled build -> is_Some (rebuild build).
Proof.
  unfold Dev.incrementalBuild, Dev.withDisk, buildFile, esbuild_build.
  destruct (compile _ _) as [[outs meta]|e]; simpl; [| done].
  intros [= <-]. by eexists.
Qed.

Lemma startBuilding_incremental fn st :
  Dev.incrementalUnits st -> Dev.incrementalUnits (snd (startBuilding fn st)).
Proof.
  intros Hinc. destruct (startBuilding_spec fn st) as (_ & _ & Hb).
  pose proof (incrementalBuild_incremental fn st) as Hi.
  destruct (fst (incrementalBuild fn st)) as [build|e].
  - intros name b. rewrite Hb, lookup_insert.
    case_decide; [intros [= <-]; by apply Hi | apply Hinc].
  - destruct Hb as [Hb _]. intros name b. rewrite Hb. apply Hinc.
Qed.

Lemma allOf_startBuilding_incremental fns st :
  Dev.incrementalUnits st ->
  Dev.incrementalUnits (snd (Dev.allOf Deps (map startBuilding fns) st)).
Proof.
  revert st. induction fns as [|fn fns IH]; intros st Hinc; [done |].
  rewrite map_cons, allOf_cons. simpl.
  by apply IH, startBuilding_incremental.
Qed.

Lemma incrementalUnits_builds (st st' : Dev.DevState Deps) :
  Dev.builds Deps st' = Dev.builds Deps st ->
  Dev.incrementalUnits st -> Dev.incrementalUnits st'.
Proof. intros E Hinc name b. rewrite E. apply Hinc. Qed.

Lemma onMessage_unlink fn st :
  Dev.incrementalUnits st ->
  let st' := snd (onMessage (MessageFunction unlink fn) st) in
  Dev.functions Deps st' =
    filter (fun f => fn_name f <> fn_name fn) (Dev.functions Deps st) /\
  Dev.builds Deps st' = delete (fn_name fn) (Dev.builds Deps st) /\
  Dev.disposed Deps st' =
    Dev.disposed Deps st ++ option_list (Dev.builds Deps st !! fn_name fn).
Proof.
  intros Hinc. unfold Dev.onMessage.
  destruct (Dev.builds Deps st !! fn_name fn) as [build|] eqn:E.
  - destruct (Hinc _ _ E) as [o Ho].
    repeat (rewrite bind_spec; simpl; rewrite ?E; unfold Dev.dispose;
            rewrite ?Ho; simpl).
    set (st1 := Dev.mkDev _ _ _ _ _ _ _ _).
    by destruct (keeps_buildIndex st1) as (-> & -> & ->).
  - repeat (rewrite bind_spec; simpl; rewrite ?E; simpl).
    set (st1 := Dev.mkDev _ _ _ _ _ _ _ _).
    destruct (keeps_buildIndex st1) as (-> & -> & ->). simpl.
    by rewrite app_nil_r.
Qed.

Lemma onMessage_initial fns st :
  let r := onMessage (MessageInitial fns) st in
  Dev.functions Deps (snd r) = fns /\
  (Dev.incrementalUnits st -> Dev.incrementalUnits (snd r)) /\
  (isRejected (fst r) = false ->
   dom (Dev.builds Deps (snd r)) =
   dom (Dev.builds Deps st) ∪ list_to_set (map fn_name fns)).
Proof.
  unfold Dev.onMessage. repeat (rewrite bind_spec; simpl).
  set (st1 := Dev.mkDev _ _ _ _ _ _ _ _).
  rewrite !allOf_cons. simpl.
  pose proof (keeps_startBuildingInit st1) as (Hf1 & Hb1 & _).
  set (st2 := snd (startBuildingInit st1)) in *.
  destruct (allOf_startBuilding fns st2) as [Hf2 Hb2].
  pose proof (allOf_startBuilding_incremental fns st2) as Hi2.
  set (st3 := snd (Dev.allOf Deps (map startBuilding fns) st2)) in *.
  pose proof (keeps_buildIndex st3) as (Hf3 & Hb3 & _).
  assert (Dev.functions Deps (snd (buildIndex st3)) = fns) as Hfns
    by by rewrite Hf3, Hf2, Hf1.
  assert (Dev.incrementalUnits st ->
          Dev.incrementalUnits (snd (buildIndex st3))) as Hinc.
  { intros Hinc. apply (incrementalUnits_builds st3); [done |].
    apply Hi2. by apply (incrementalUnits_builds st). }
  destruct (fst (startBuildingInit st1)) as [[]|e1]; simpl;
    [| by repeat split].
  destruct (fst (Dev.allOf Deps (map startBuilding fns) st2)) as [[]|e2];
    simpl; [| by repeat split].
  assert (dom (Dev.builds Deps (snd (buildIndex st3))) =
          dom (Dev.builds Deps st) ∪ list_to_set (map fn_name fns)) as Hd.
  { rewrite Hb3, Hb2 by done. by rewrite Hb1. }
  destruct (fst (buildIndex st3)) as [[]|e3]; simpl; by repeat split.
Qed.

(** C6: when the [rebuild()] of a unit fails, the handler of the change
    (of a function, of the init module, or of a watched dependency) is
    rejected with the build error before [writeEsbuildFile] is reached; the
    output files on disk, and the rest of the state, are what they were. *)
Theorem failed_rebuild_writes_nothing (st : Dev.DevState Deps)
    (build : BuildResult) (options : BuildOptions) (e : error) :
  rebuild build = Some options ->
  fst (esbuild_build compile options (Dev.disk Deps st)) = Rejected e ->
  (forall fn, Dev.builds Deps st !! fn_name fn = Some build ->
     onMessage (MessageFunction change fn) st = (Rejected e, st)) /\
  (Dev.initBuild Deps st = Some build ->
   onMessage (MessageInit change) st = (Rejected e, st)) /\
  (forall file, Dev.builds Deps st !! file = Some build ->
     onDepsChange file st = (Rejected e, st)).
Proof.
  intros Hh Hfail. apply esbuild_build_rejected in Hfail.
  assert (rebuildOf (Some build) st = (Rejected e, st)) as Hr.
  { unfold Dev.rebuildOf. rewrite Hh.
    unfold Dev.bind, Dev.withDisk. rewrite Hfail. by destruct st. }
  repeat split.
  - intros fn Hb. unfold Dev.onMessage, Dev.bind, Dev.get. simpl.
    by rewrite Hb, Hr.
  - intros Hi. unfold Dev.onMessage, Dev.bind, Dev.get. simpl.
    by rewrite Hi, Hr.
  - intros file Hb. unfold Dev.onDepsChange, Dev.bind, Dev.get. simpl.
    by rewrite Hb, Hr.
Qed.


End ConsumerFacts.

Lemma failed_rebuild_writes_nothing_witness :
  SampleDev.onMessage Sample.compileFail (MessageFunction change Sample.hello)
    SampleDev.built =
  (Rejected (Error "Build failed with 1 error"), SampleDev.built).
Proof.
  apply (failed_rebuild_writes_nothing Sample.host1 Sample.buildConfig0
           Sample.compileFail unit Sample.onBuild Sample.onStop
           Sample.writeEsbuildFile SampleDev.built SampleDev.helloBuild
           SampleDev.helloOptions (Error "Build failed with 1 error")).
  - reflexivity.
  - reflexivity.
  - apply lookup_singleton_eq.
Defined.

Lemma start_unitsMatch : Dev.unitsMatch SampleDev.start.
Proof. unfold Dev.unitsMatch. simpl. by rewrite dom_empty_L. Qed.

Lemma start_incrementalUnits : Dev.incrementalUnits SampleDev.start.
Proof. intros name b. simpl. by rewrite lookup_empty. Qed.



(** * Further properties *)

(** ** The registry and the router *)

Module RegistryFacts2.

Lemma listFunctionsItem_Some h buildConfig itemPath fn :
  listFunctionsItem h buildConfig itemPath = Fulfilled (Some fn) ->
  includedFunction buildConfig fn = true /\
  fn_name fn = Path.name (Path.parse itemPath) /\
  fn_path fn <> "".
Proof.
  unfold listFunctionsItem, await.
  destruct (findFunctionPath h (cwd buildConfig) _) as [[p|]|e]; [| done | done].
  destruct (Str.truthy p) eqn:Ht; simpl; [| done].
  destruct (includedFunction buildConfig _) eqn:Hi; [| done].
  intros [= <-]. simpl. repeat split; [done |]. by destruct p.
Qed.

Lemma sweep_items h buildConfig dir items :
  map (listFunctionsItem h buildConfig) dir = map Fulfilled items ->
  Forall (fun fn => includedFunction buildConfig fn = true /\ fn_path fn <> "")
    (sweep items) /\
  map fn_name (sweep items)
    `sublist_of` map (fun itemPath => Path.name (Path.parse itemPath)) dir.
Proof.
  revert items. induction dir as [|item dir IH]; intros [|o items] [=].
  - split; [constructor | done].
  - destruct (IH items) as [IHf IHs]; [done |].
    destruct o as [fn|]; unfold sweep in *; simpl.
    + destruct (listFunctionsItem_Some _ _ _ _ H0) as (Hi & Hn & Hp).
      split; [by constructor |]. rewrite Hn. by apply sublist_skip.
    + split; [done |]. by apply sublist_cons.
Qed.

End RegistryFacts2.



Module RouterFacts.

Lemma onAll_cases h buildConfig event path m :
  m ∈ onAll h buildConfig (event, path) ->
  exists e, watchEventOf event = Some e /\
    ((m = MessageInit e /\
      isInitPath (functionsInitPath (config buildConfig)) path = true) \/
     (exists fn, m = MessageFunction e fn /\
        isInitPath (functionsInitPath (config buildConfig)) path = false /\
        parseFunction h buildConfig path = Some fn /\
        includedFunction buildConfig fn = true)).
Proof.
  unfold onAll.
  assert (forall e,
    m ∈ (if isInitPath (functionsInitPath (config buildConfig)) path
         then [MessageInit e]
         else match parseFunction h buildConfig path with
              | None => []
              | Some fn =>
                  if negb (includedFunction buildConfig fn) then []
                  else [MessageFunction e fn]
              end) ->
    (m = MessageInit e /\
      isInitPath (functionsInitPath (config buildConfig)) path = true) \/
    (exists fn, m = MessageFunction e fn /\
        isInitPath (functionsInitPath (config buildConfig)) path = false /\
        parseFunction h buildConfig path = Some fn /\
        includedFunction buildConfig fn = true)) as Hd.
  { intros e. destruct (isInitPath _ path).
    - intros ->%list_elem_of_singleton. by left.
    - destruct (parseFunction h buildConfig path) as [fn|];
        [| by intros ?%elem_of_nil].
      destruct (includedFunction buildConfig fn) eqn:Hi; simpl;
        [| by intros ?%elem_of_nil].
      intros ->%list_elem_of_singleton. right. by exists fn. }
  destruct event; simpl; try (by intros ?%elem_of_nil);
    intros Hm%Hd; eauto.
Qed.

Lemma onAll_length h buildConfig notification :
  length (onAll h buildConfig notification) <= 1.
Proof.
  destruct notification as [event path]. unfold onAll.
  assert (forall e,
    length (if isInitPath (functionsInitPath (config buildConfig)) path
            then [MessageInit e]
            else match parseFunction h buildConfig path with
                 | None => []
                 | Some fn =>
                     if negb (includedFunction buildConfig fn) then []
                     else [MessageFunction e fn]
                 end) <= 1) as Hd.
  { intros e. destruct (isInitPath _ path); [done |].
    destruct (parseFunction h buildConfig path) as [fn|]; [| simpl; lia].
    destruct (negb _); simpl; lia. }
  destruct event; simpl; auto; lia.
Qed.

Lemma elem_of_concat {A : Type} (x : A) (ls : list (list A)) :
  x ∈ concat ls -> exists l, x ∈ l /\ l ∈ ls.
Proof.
  rewrite list_elem_of_In, in_concat. intros (l & Hl & Hx).
  exists l. by rewrite !list_elem_of_In.
Qed.

Lemma concat_length_le {A : Type} (ls : list (list A)) :
  Forall (fun l => length l <= 1) ls -> length (concat ls) <= length ls.
Proof.
  induction 1 as [|l ls Hl _ IH]; simpl; [done |].
  rewrite length_app. lia.
Qed.

End RouterFacts.

(** X2: every message the subscription delivers after the initial one
    comes from one notification of a file event (directory events are
    dropped): a function message carries the identity [parseFunction] gives
    the notified path, which is not the init path and passes the inclusion
    policy, with the kind of the notification; an init message is delivered
    for the init path only.  At most one message follows per
    notification. *)
Theorem watchListFunction_routes (h : Host) (buildConfig : FiremynaBuildConfig)
    (notifications : list (ChokidarEvent * string)) :
  let messages := snd (watchListFunction h buildConfig notifications) in
  length messages <= 1 + length notifications /\
  (forall event fn, MessageFunction event fn ∈ messages ->
     includedFunction buildConfig fn = true /\
     exists kind path,
       (kind, path) ∈ notifications /\ watchEventOf kind = Some event /\
       isInitPath (functionsInitPath (config buildConfig)) path = false /\
       parseFunction h buildConfig path = Some fn) /\
  (forall event, MessageInit event ∈ messages ->
     exists kind path,
       (kind, path) ∈ notifications /\ watchEventOf kind = Some event /\
       isInitPath (functionsInitPath (config buildConfig)) path = true).
Proof.
  unfold watchListFunction.
  destruct (listFunctions h buildConfig) as [functions|e]; simpl.
  - split; [| split].
    + pose proof (RouterFacts.concat_length_le
                    (map (onAll h buildConfig) notifications)) as Hle.
      rewrite length_map in Hle.
      assert (length (concat (map (onAll h buildConfig) notifications))
              <= length notifications); [| lia].
      apply Hle, Forall_map, Forall_forall. intros n _.
      apply RouterFacts.onAll_length.
    + intros event fn [[=] | Hin]%elem_of_cons.
      apply RouterFacts.elem_of_concat in Hin as (l & Hm & Hl).
      apply list_elem_of_fmap in Hl as ([kind path] & -> & Hn).
      apply RouterFacts.onAll_cases in Hm
        as (e & He & [[[=] _] | (fn' & [= <- <-] & Hi & Hp & Hinc)]).
      split; [done |]. by exists kind, path.
    + intros event [[=] | Hin]%elem_of_cons.
      apply RouterFacts.elem_of_concat in Hin as (l & Hm & Hl).
      apply list_elem_of_fmap in Hl as ([kind path] & -> & Hn).
      apply RouterFacts.onAll_cases in Hm
        as (e & He & [[[= <-] Hi] | (fn' & [=] & _)]).
      by exists kind, path.
  - split; [lia |]. split; intros; by apply elem_of_nil in H.
Qed.

(** X3: when no init path is configured (none, or the empty string), the
    subscription never delivers an init message. *)
Theorem watchListFunction_no_init_message (h : Host)
    (buildConfig : FiremynaBuildConfig)
    (notifications : list (ChokidarEvent * string)) :
  truthyPath (functionsInitPath (config buildConfig)) = false ->
  Forall (fun m => isInitMessage m = false)
    (snd (watchListFunction h buildConfig notifications)).
Proof.
  intros Hinit.
  assert (forall path,
    isInitPath (functionsInitPath (config buildConfig)) path = false) as Hno.
  { intros path. unfold isInitPath.
    destruct (functionsInitPath (config buildConfig)) as [init|]; [| done].
    simpl in Hinit. by rewrite Hinit. }
  unfold watchListFunction.
  destruct (listFunctions h buildConfig) as [functions|e]; simpl;
    [| constructor].
  constructor; [done |].
  apply Forall_forall. intros m Hin.
  apply RouterFacts.elem_of_concat in Hin as (l & Hm & Hl).
  apply list_elem_of_fmap in Hl as ([kind path] & -> & Hn).
  apply RouterFacts.onAll_cases in Hm
    as (e & He & [[_ Hi] | (fn & -> & _)]); [| done].
  by rewrite Hno in Hi.
Qed.

Lemma watchListFunction_no_init_message_witness :
  Forall (fun m => isInitMessage m = false)
    (snd (watchListFunction Sample.host1 Sample.buildConfig0
            [(chokidar_change, "functions/hello.ts")])).
Proof.
  apply (watchListFunction_no_init_message Sample.host1 Sample.buildConfig0).
  reflexivity.
Defined.

(** ** More on child supervision *)

Module SupervisorFacts2.
Import Dev.

Lemma quiet_step r e r' :
  step r e r' -> isSignal e = false ->
  exiting (sup r) = false -> exited (sup r) = None -> kills (sup r) = [] ->
  exiting (sup r') = false /\ exited (sup r') = None /\ kills (sup r') = [].
Proof.
  intros Hstep Hq He Ha Hk.
  destruct Hstep as [r child _ _ | r child _ _ | r signal]; [| | done];
    simpl; unfold handle; rewrite Ha; simpl.
  - done.
  - unfold onExit. simpl. by rewrite He.
Qed.

Lemma quiet_steps r es r' :
  steps r es r' -> Forall (fun e => isSignal e = false) es ->
  exiting (sup r) = false -> exited (sup r) = None -> kills (sup r) = [] ->
  exiting (sup r') = false /\ exited (sup r') = None /\ kills (sup r') = [].
Proof.
  induction 1 as [|r e r' es r'' Hstep _ IH]; [done |].
  intros [Hq Hqs]%Forall_cons He Ha Hk.
  destruct (quiet_step _ _ _ Hstep Hq He Ha Hk) as (He' & Ha' & Hk').
  by apply IH.
Qed.

End SupervisorFacts2.

(** X4: as long as no termination signal is received, the supervisor keeps
    running and kills no child, whatever children are spawned and however
    they exit: the exit of a child, also of the last one, never ends the
    supervising process by itself. *)
Theorem supervisor_runs_without_signal (es : list Dev.Event) (r : Dev.Run) :
  Dev.steps Dev.boot es r ->
  Forall (fun e => isSignal e = false) es ->
  Dev.exited (Dev.sup r) = None /\ Dev.exiting (Dev.sup r) = false /\
  Dev.kills (Dev.sup r) = [].
Proof.
  intros Hs Hq.
  by destruct (SupervisorFacts2.quiet_steps _ _ _ Hs Hq) as (He & Ha & Hk).
Qed.

Lemma supervisor_runs_without_signal_witness :
  Dev.exited
    (Dev.sup (Dev.mkRun (Dev.mkSupervisor false [] None []) [1] [1])) = None.
Proof.
  apply (supervisor_runs_without_signal [Dev.Spawned 1; Dev.ChildExited 1]).
  - eapply Dev.steps_cons;
      [apply Dev.step_spawn; [done | apply not_elem_of_nil] |].
    eapply Dev.steps_cons;
      [apply Dev.step_exit; [by apply list_elem_of_singleton
                            | apply not_elem_of_nil] |].
    apply Dev.steps_nil.
  - by repeat constructor.
Defined.

(** X5: in every state the running supervisor can reach, its child list is
    exactly the children spawned that have not reported their exit, in
    spawn order and without repetition; and every child that reported its
    exit had been spawned. *)
Theorem supervisor_tracks_live_children (r : Dev.Run) :
  Dev.reachable r -> Dev.exited (Dev.sup r) = None ->
  Dev.children (Dev.sup r) = Dev.live r /\
  NoDup (Dev.children (Dev.sup r)) /\
  (forall child, child ∈ Dev.children (Dev.sup r) <->
                 child ∈ Dev.spawned r /\ child ∉ Dev.reported r) /\
  (forall child, child ∈ Dev.reported r -> child ∈ Dev.spawned r).
Proof.
  intros Hr Ha.
  pose proof (SupervisorFacts.invariant_reachable r Hr) as Hinv.
  pose proof (Dev.inv_children r Hinv Ha) as Hch.
  rewrite Hch. split; [done |]. split; [| split].
  - apply NoDup_filter, (Dev.inv_nodup r Hinv).
  - intros child. unfold Dev.live. rewrite list_elem_of_filter. tauto.
  - apply (Dev.inv_reported r Hinv).
Qed.

Lemma supervisor_tracks_live_children_witness :
  Dev.children (Dev.sup Dev.run2) = Dev.live Dev.run2.
Proof.
  apply (supervisor_tracks_live_children Dev.run2); [| done].
  exists [Dev.Spawned 1; Dev.Spawned 2].
  eapply Dev.steps_cons;
    [apply Dev.step_spawn; [done | apply not_elem_of_nil] |].
  eapply Dev.steps_cons;
    [apply Dev.step_spawn;
     [done | by intros [? | ?%elem_of_nil]%elem_of_cons] |].
  apply Dev.steps_nil.
Defined.

(** ** More on building and on the consumer *)

(** X6: [buildFile] never writes to the disk, whatever the bundler
    answers; when the build succeeds it hands back the output files and the
    manifest in memory, and an incremental handle exactly when an
    incremental build was asked for; the handle re-runs a build that does
    not write either. *)
Theorem buildFile_in_memory (h : Host) (compile : Compiler)
    (props : BuildFileProps) (disk : Disk) :
  snd (buildFile h compile props disk) = disk /\
  forall result, fst (buildFile h compile props disk) = Fulfilled result ->
    is_Some (outputFiles result) /\ is_Some (metafile result) /\
    (is_Some (rebuild result) <-> incremental props = true) /\
    (forall options, rebuild result = Some options -> write options = false).
Proof.
  unfold buildFile, esbuild_build.
  destruct (compile (buildFileOptions h props) disk) as [[outs meta]|e];
    simpl; [| done].
  split; [done |]. intros result [= <-]. simpl.
  repeat split; try by eexists.
  - destruct (incremental props); [done | by intros [? [=]]].
  - intros ->. by eexists.
  - intros options. by destruct (incremental props); intros [= <-].
Qed.

Section ConsumerFacts2.

Variable h : Host.
Variable buildConfig : FiremynaBuildConfig.
Variable compile : Compiler.
Variable Deps : Type.
Variable onBuild : string -> Metafile -> Deps -> Deps.
Variable onStop : string -> Deps -> Deps.
Variable writeEsbuildFile : option BuildResult -> Disk -> promise unit * Disk.

Local Abbreviation onMessage :=
  (Dev.onMessage h buildConfig compile Deps onBuild onStop writeEsbuildFile).
Local Abbreviation onDepsChange :=
  (Dev.onDepsChange compile Deps onBuild writeEsbuildFile).
Local Abbreviation startBuilding :=
  (Dev.startBuilding h buildConfig compile Deps onBuild writeEsbuildFile).
Local Abbreviation startBuildingInit :=
  (Dev.startBuildingInit h buildConfig compile Deps onBuild writeEsbuildFile).
Local Abbreviation buildIndex :=
  (Dev.buildIndex h buildConfig compile Deps onBuild writeEsbuildFile).
Local Abbreviation incrementalBuild :=
  (Dev.incrementalBuild h buildConfig compile Deps).

Local Arguments Dev.noteBuild : simpl never.
Local Arguments Dev.rebuildOf : simpl never.
Local Arguments Dev.incrementalBuild : simpl never.
Local Arguments Dev.incrementalBuildInit : simpl never.
Local Arguments Dev.startBuilding : simpl never.
Local Arguments Dev.startBuildingInit : simpl never.
Local Arguments Dev.buildIndex : simpl never.
Local Arguments Dev.allOf : simpl never.
Local Arguments esbuild_build : simpl never.
Local Arguments buildFile : simpl never.

Lemma onMessage_add_disposed fn st :
  Dev.disposed Deps (snd (onMessage (MessageFunction add fn) st)) =
  Dev.disposed Deps st.
Proof.
  unfold Dev.onMessage.
  repeat (rewrite (bind_spec Deps); simpl).
  set (st1 := Dev.mkDev _ _ _ _ _ _ _ _).
  destruct (startBuilding_spec h buildConfig compile Deps onBuild
              writeEsbuildFile fn st1) as (_ & Hd & _).
  pose proof (keeps_buildIndex h buildConfig compile Deps onBuild
                writeEsbuildFile (snd (startBuilding fn st1)))
    as (_ & _ & Hd').
  destruct (fst (startBuilding fn st1)); simpl; [by rewrite Hd' |done].
Qed.

Lemma filter_fresh (fns : list FiremynaFunction) name :
  Forall (fun f => fn_name f <> name) fns ->
  filter (fun f => fn_name f <> name) fns = fns.
Proof.
  induction 1 as [|f fns Hf _ IH]; [done |].
  rewrite filter_cons_True by done. by rewrite IH.
Qed.



(** X9: once the init module was unlinked its build is forgotten: the
    unlink leaves the disk, the function set and the build-unit map alone,
    and a later change of the init module neither rebuilds nor writes; so
    does any change of the init module while no init build is held. *)
Theorem init_unlink_forgets (st : Dev.DevState Deps) :
  let st' := snd (onMessage (MessageInit unlink) st) in
  fst (onMessage (MessageInit unlink) st) = Fulfilled tt /\
  Dev.initBuild Deps st' = None /\
  Dev.disk Deps st' = Dev.disk Deps st /\
  Dev.functions Deps st' = Dev.functions Deps st /\
  Dev.builds Deps st' = Dev.builds Deps st /\
  onMessage (MessageInit change) st' = (Fulfilled tt, st') /\
  (Dev.initBuild Deps st = None ->
   onMessage (MessageInit change) st = (Fulfilled tt, st)).
Proof.
  intros st'. unfold st', Dev.onMessage, Dev.bind, Dev.get. simpl.
  repeat split. unfold Dev.rebuildOf. by intros ->.
Qed.

End ConsumerFacts2.



Section DiskFacts.

Variable h : Host.
Variable buildConfig : FiremynaBuildConfig.
Variable compile : Compiler.
Variable Deps : Type.
Variable onBuild : string -> Metafile -> Deps -> Deps.
Variable onStop : string -> Deps -> Deps.
Variable writeEsbuildFile : option BuildResult -> Disk -> promise unit * Disk.
Hypothesis Hwrite : writesNothing writeEsbuildFile.

Local Abbreviation onMessage :=
  (Dev.onMessage h buildConfig compile Deps onBuild onStop writeEsbuildFile).
Local Abbreviation onDepsChange :=
  (Dev.onDepsChange compile Deps onBuild writeEsbuildFile).

Lemma keepsDisk_ret {A : Type} (a : A) : keepsDisk (Dev.ret Deps a).
Proof. by intros st. Qed.

Lemma keepsDisk_bind {A B : Type} (m : Dev.Async Deps A)
    (k : A -> Dev.Async Deps B) :
  keepsDisk m -> (forall a, keepsDisk (k a)) -> keepsDisk (Dev.bind Deps m k).
Proof.
  intros Hm Hk st. unfold Dev.bind. specialize (Hm st).
  destruct (m st) as [[a|e] st']; simpl in *; [| done].
  by rewrite (Hk a st').
Qed.

Lemma keepsDisk_withDisk {A : Type} (f : Disk -> promise A * Disk) :
  (forall d, snd (f d) = d) -> keepsDisk (Dev.withDisk Deps f).
Proof.
  intros Hf st. unfold Dev.withDisk. specialize (Hf (Dev.disk Deps st)).
  by destruct (f (Dev.disk Deps st)).
Qed.

Lemma keepsDisk_detached {A : Type} (m : Dev.Async Deps A) :
  keepsDisk m -> keepsDisk (Dev.detached Deps m).
Proof. intros Hm st. apply Hm. Qed.

Lemma keepsDisk_allOf tasks :
  Forall keepsDisk tasks -> keepsDisk (Dev.allOf Deps tasks).
Proof.
  induction 1 as [|t ts Ht _ IH]; intros st; simpl; [done |].
  specialize (Ht st). destruct (t st) as [r st']. simpl in Ht.
  specialize (IH st'). destruct (Dev.allOf Deps ts st') as [rs st''].
  simpl in *. congruence.
Qed.

Lemma keepsDisk_noteBuild file build :
  keepsDisk (Dev.noteBuild Deps onBuild file build).
Proof.
  unfold Dev.noteBuild. destruct build as [b|]; [| done].
  by destruct (metafile b).
Qed.

Lemma keepsDisk_dispose build : keepsDisk (Dev.dispose Deps build).
Proof.
  intros st. unfold Dev.dispose. destruct build as [b|]; [| done].
  by destruct (rebuild b).
Qed.

Lemma buildFile_disk props d : snd (buildFile h compile props d) = d.
Proof.
  unfold buildFile, esbuild_build.
  by destruct (compile _ d) as [[outs meta]|e].
Qed.

Lemma keepsDisk_write build :
  keepsDisk (Dev.withDisk Deps (writeEsbuildFile build)).
Proof. apply keepsDisk_withDisk, Hwrite. Qed.

Lemma keepsDisk_rebuildOf build :
  (forall b options, build = Some b -> rebuild b = Some options ->
     write options = false) ->
  keepsDisk (Dev.rebuildOf compile Deps build).
Proof.
  intros Hb. unfold Dev.rebuildOf. destruct build as [b|]; [| done].
  destruct (rebuild b) as [options|] eqn:E; [| done].
  apply keepsDisk_bind; [| by intros].
  apply keepsDisk_withDisk. intros d. unfold esbuild_build.
  destruct (compile options d) as [[outs meta]|e]; [| done]. simpl.
  by rewrite (Hb b options).
Qed.

Lemma keepsDisk_startBuilding fn :
  keepsDisk
    (Dev.startBuilding h buildConfig compile Deps onBuild writeEsbuildFile fn).
Proof.
  unfold Dev.startBuilding, Dev.incrementalBuild.
  apply keepsDisk_bind;
    [apply keepsDisk_withDisk; intros; apply buildFile_disk |]. intros build.
  apply keepsDisk_bind; [apply keepsDisk_noteBuild |]. intros _.
  apply keepsDisk_bind; [done |]. intros _.
  apply keepsDisk_write.
Qed.

Lemma keepsDisk_startBuildingInit :
  keepsDisk
    (Dev.startBuildingInit h buildConfig compile Deps onBuild writeEsbuildFile).
Proof.
  unfold Dev.startBuildingInit. destruct (negb _); [done |].
  apply keepsDisk_bind.
  { unfold Dev.incrementalBuildInit.
    destruct (functionsInitPath (config buildConfig)); [| done].
    destruct (negb _); [done |].
    apply keepsDisk_bind; [| by intros].
    apply keepsDisk_withDisk. intros; apply buildFile_disk. }
  intros b. apply keepsDisk_bind; [done |]. intros _.
  apply keepsDisk_bind; [apply keepsDisk_noteBuild |]. intros _.
  destruct b; [apply keepsDisk_write | done].
Qed.

Lemma keepsDisk_buildIndex :
  keepsDisk
    (Dev.buildIndex h buildConfig compile Deps onBuild writeEsbuildFile).
Proof.
  unfold Dev.buildIndex.
  apply keepsDisk_bind; [done |]. intros fns.
  apply keepsDisk_bind;
    [apply keepsDisk_withDisk; intros; apply buildFile_disk |]. intros build.
  apply keepsDisk_bind; [apply keepsDisk_noteBuild |]. intros _.
  apply keepsDisk_write.
Qed.

(** X10: esbuild never writes for the consumer: were [writeEsbuildFile]
    to write nothing, no message and no change of a watched dependency
    would alter the disk, so every file the development server puts in the
    build directory is put there by [writeEsbuildFile]. *)
Theorem disk_written_by_writeEsbuildFile_only (st : Dev.DevState Deps) :
  inMemoryUnits st ->
  (forall message,
     Dev.disk Deps (snd (onMessage message st)) = Dev.disk Deps st) /\
  (forall file, Dev.disk Deps (snd (onDepsChange file st)) = Dev.disk Deps st).
Proof.
  intros [Hunits Hinit]. split.
  - intros message.
    destruct message as [fns | event fn | event]; unfold Dev.onMessage.
    + apply keepsDisk_bind; [done |]. intros _.
      apply keepsDisk_bind; [| by intros].
      apply keepsDisk_allOf. repeat constructor.
      * apply keepsDisk_startBuildingInit.
      * apply keepsDisk_allOf, Forall_map, Forall_forall.
        intros fn _. apply keepsDisk_startBuilding.
      * apply keepsDisk_buildIndex.
    + destruct event.
      * apply keepsDisk_bind; [done |]. intros fns.
        apply keepsDisk_bind; [done |]. intros _.
        apply keepsDisk_bind; [apply keepsDisk_startBuilding |]. intros _.
        apply keepsDisk_buildIndex.
      * rewrite (bind_spec Deps). simpl.
        apply keepsDisk_bind; [| intros; apply keepsDisk_write].
        apply keepsDisk_rebuildOf. intros b o Hb. by apply (Hunits _ _ _ Hb).
      * apply keepsDisk_bind; [done |]. intros fns.
        apply keepsDisk_bind; [done |]. intros _.
        apply keepsDisk_bind; [done |]. intros bs.
        apply keepsDisk_bind; [apply keepsDisk_dispose |]. intros _.
        apply keepsDisk_bind; [done |]. intros _.
        apply keepsDisk_bind; [done |]. intros _.
        apply keepsDisk_detached, keepsDisk_buildIndex.
    + destruct event.
      * apply keepsDisk_bind; [apply keepsDisk_startBuildingInit |].
        intros _. apply keepsDisk_bind; [done |].
        intros [b|]; [apply keepsDisk_buildIndex | done].
      * rewrite (bind_spec Deps). simpl.
        apply keepsDisk_bind.
        { apply keepsDisk_rebuildOf. intros b o Hb. by apply (Hinit _ _ Hb). }
        intros b. destruct (Dev.initBuild Deps st);
          [apply keepsDisk_write | done].
      * apply keepsDisk_bind; [done |]. by intros _.
  - intros file. unfold Dev.onDepsChange. rewrite (bind_spec Deps). simpl.
    apply keepsDisk_bind.
    { apply keepsDisk_rebuildOf. intros b o Hb. by apply (Hunits _ _ _ Hb). }
    intros b. apply keepsDisk_bind; [apply keepsDisk_noteBuild |].
    intros _. apply keepsDisk_write.
Qed.

End DiskFacts.

Lemma built_inMemoryUnits : inMemoryUnits SampleDev.built.
Proof.
  split; [| done]. intros name build options. simpl.
  intros [_ <-]%lookup_singleton_Some [= <-]. reflexivity.
Qed.

Lemma disk_written_by_writeEsbuildFile_only_witness :
  Dev.disk unit
    (snd (Dev.onMessage Sample.host1 Sample.buildConfig0 Sample.compileOk unit
            Sample.onBuild Sample.onStop Sample2.writeNothing
            (MessageFunction change Sample.hello) SampleDev.built)) =
  Dev.disk unit SampleDev.built.
Proof.
  apply (disk_written_by_writeEsbuildFile_only Sample.host1
           Sample.buildConfig0 Sample.compileOk unit Sample.onBuild
           Sample.onStop Sample2.writeNothing).
  - by intros build disk.
  - apply built_inMemoryUnits.
Defined.

(** ** Loaders and log lines *)

Module LoaderFacts.
Import RegExpFacts PathFacts.

(** The extension [path.parse] finds after a non-empty stem. *)
Lemma splitExt_ext stem e :
  stem <> "" -> Str.no_dot e = true -> e <> "" ->
  Path.splitExt (stem +:+ String "." e) = (stem, String "." e).
Proof.
  intros Hne Hd He. unfold Path.splitExt.
  rewrite rsplit_app_sep, (rsplit_none _ e) by done.
  destruct stem as [|c stem]; [done |].
  destruct (String.eqb_spec (String c stem +:+ String "." e) "..")
    as [E | _]; [| done].
  exfalso. destruct stem as [|c' stem]; simpl in E.
  - injection E as -> E. by destruct e.
  - injection E as -> E. destruct stem; simpl in E; discriminate.
Qed.

Lemma extname_ext stem e :
  stem <> "" -> Str.no_slash stem = true ->
  Str.no_dot e = true -> Str.no_slash e = true -> e <> "" ->
  Path.extname (stem +:+ String "." e) = String "." e.
Proof.
  intros Hne Hs Hd Hse He. unfold Path.extname.
  assert (isSegment (stem +:+ String "." e)) as Hseg.
  { split; [by destruct stem |].
    unfold Str.no_slash in *. rewrite IndexFacts.all_app, Hs. simpl.
    by rewrite Hse. }
  pose proof (parse_join [] _ (List.Forall_nil _) Hseg) as Hp. simpl in Hp.
  rewrite Hp. simpl. by rewrite splitExt_ext.
Qed.

End LoaderFacts.

(** X11: for a source file name with a non-empty stem, [sourceFileLoader]
    gives the loader of its script extension (ts, tsx, jsx, js); a name
    ending in .cjs, as the output names [buildFile] falls back on when no
    source file is given, gets the js loader. *)
Theorem sourceFileLoader_by_extension (stem : string) :
  stem <> "" -> Str.no_slash stem = true ->
  (forall ext, ext ∈ scriptExtensions ->
     "." +:+ sourceFileLoader (stem +:+ ext) = ext) /\
  sourceFileLoader (stem +:+ ".cjs") = "js".
Proof.
  intros Hne Hs. split.
  - intros ext Hext. unfold scriptExtensions in Hext. unfold sourceFileLoader.
    repeat (apply elem_of_cons in Hext as [-> | Hext];
            [by rewrite LoaderFacts.extname_ext |]).
    by apply elem_of_nil in Hext.
  - unfold sourceFileLoader. by rewrite LoaderFacts.extname_ext.
Qed.

Lemma sourceFileLoader_by_extension_witness :
  sourceFileLoader ("hello" +:+ ".cjs") = "js".
Proof. by apply (sourceFileLoader_by_extension "hello"). Defined.

Module LogFacts.

Lemma cycle_space n : Log.cycle n " " " " = Log.spaces n.
Proof.
  assert (forall n rest, rest = "" \/ rest = " " ->
            Log.cycle n " " rest = Log.spaces n) as H.
  { clear n. induction n as [|n IH]; intros rest Hr; [done |].
    destruct Hr as [-> | ->]; simpl; f_equal; apply IH; auto. }
  apply H. by right.
Qed.

Lemma length_append a b :
  String.length (a +:+ b) = String.length a + String.length b.
Proof. induction a as [|c a IH]; simpl; [done | by rewrite IH]. Qed.

Lemma length_spaces n : String.length (Log.spaces n) = n.
Proof. induction n as [|n IH]; simpl; [done | by rewrite IH]. Qed.

Lemma padStart_space label :
  Log.padStart label 8 " " = Log.spaces (8 - String.length label) +:+ label.
Proof.
  unfold Log.padStart. destruct (Nat.leb_spec 8 (String.length label)) as [H|H].
  - replace (8 - String.length label) with 0 by lia. reflexivity.
  - simpl negb. cbv iota. by rewrite cycle_space.
Qed.

End LogFacts.

(** X12: a log line is the label right-aligned in a column of eight
    characters (a longer label is kept whole), then the separator, then the
    message; the prefix is coloured red for an error line, whatever the
    child's formatter, and dimmed in the child's colour otherwise. *)
Theorem log_line (red dim : string -> string) (props : Log.LogProps) :
  let prefix :=
    Log.spaces (8 - String.length (Log.label props)) +:+ Log.label props
    +:+ " | " in
  Log.log red dim props =
    (if Log.error props then red prefix
     else dim (Log.formatter props prefix)) +:+ Log.message props /\
  String.length prefix = Nat.max 8 (String.length (Log.label props)) + 3.
Proof.
  intros prefix. unfold Log.log. rewrite LogFacts.padStart_space.
  split.
  - rewrite RegExpFacts.append_assoc. fold prefix. by destruct (Log.error props).
  - unfold prefix. rewrite !LogFacts.length_append, LogFacts.length_spaces.
    simpl. lia.
Qed.

(** ** The one-shot build *)

Module BuildFacts.

Lemma buildFile_outputs h compile props d result :
  fst (buildFile h compile props d) = Fulfilled result ->
  is_Some (outputFiles result).
Proof.
  unfold buildFile, esbuild_build.
  destruct (compile _ d) as [[outs meta]|e]; simpl.
  - intros [= <-]. by eexists.
  - done.
Qed.

Lemma buildFile_keeps h compile props d :
  snd (buildFile h compile props d) = d.
Proof.
  unfold buildFile, esbuild_build.
  by destruct (compile _ d) as [[outs meta]|e].
Qed.

Local Ltac build_task h compile :=
  match goal with
  | |- context [buildFile h compile ?props ?d] =>
      pose proof (buildFile_keeps h compile props d) as Hk;
      pose proof (buildFile_outputs h compile props d) as Ho;
      destruct (buildFile h compile props d) as [[result|e] d'];
      simpl in *; subst d';
      (split; [done |]); intros o [= <-];
      (split; [done |]); by apply Ho
  end.

Lemma functionTask_ok h readFile compile buildConfig fn :
  taskOk (Build.functionTask h readFile compile buildConfig fn)
    [fn_name fn +:+ ".cjs"].
Proof.
  intros d. unfold Build.functionTask.
  destruct (readFile _) as [contents|e]; [| done].
  build_task h compile.
Qed.

Lemma indexTask_ok h compile buildConfig indexContents :
  taskOk (Build.indexTask h compile buildConfig indexContents) ["index.cjs"].
Proof. intros d. unfold Build.indexTask. build_task h compile. Qed.

Lemma initTask_ok h readFile compile buildConfig :
  taskOk (Build.initTask h readFile compile buildConfig)
    (if truthyPath (functionsInitPath (config buildConfig))
     then ["init.cjs"] else []).
Proof.
  intros d. unfold Build.initTask, truthyPath.
  destruct (functionsInitPath (config buildConfig)) as [initPath|];
    [| by split; [| intros o [= <-]]].
  destruct (Str.truthy initPath); simpl; [| by split; [| intros o [= <-]]].
  destruct (readFile initPath) as [contents|e]; [| done].
  build_task h compile.
Qed.

Lemma startAll_entries tasks keyss disk :
  Forall2 taskOk tasks keyss ->
  snd (Build.startAll tasks disk) = disk /\
  forall entries,
    Promise_all (fst (Build.startAll tasks disk)) = Fulfilled entries ->
    (sweep entries).*1 = concat keyss /\
    Forall (fun entry => is_Some (outputFiles (snd entry))) (sweep entries).
Proof.
  induction 1 as [|t keys tasks keyss Ht _ [IHd IHe]]; simpl.
  - split; [done |]. intros entries [= <-]. by split.
  - destruct (Ht disk) as [Hd Ho].
    destruct (t disk) as [r d']. simpl in Hd, Ho. subst d'.
    destruct (Build.startAll tasks disk) as [rs d']. simpl in *. subst d'.
    split; [done |]. intros entries.
    destruct r as [o|e]; simpl; [| done].
    destruct (Promise_all rs) as [os|e]; simpl; [| done].
    intros [= <-]. destruct (IHe os eq_refl) as [IHk IHr].
    specialize (Ho o eq_refl). unfold sweep in *.
    destruct o as [[key result]|]; simpl.
    + destruct Ho as [-> Hres]. fold (omap id os).
      change (list_fmap _ _ fst (omap id os)) with (omap id os).*1.
      rewrite IHk. split; [done | by constructor].
    + rewrite Ho. by split.
Qed.

Lemma dom_assign (l : list (string * BuildResult)) m :
  dom (fold_left Build.assign l m) = dom m ∪ list_to_set l.*1.
Proof.
  revert m. induction l as [|[key result] l IH]; intros m; simpl.
  - set_solver.
  - rewrite IH. unfold Build.assign. simpl. rewrite dom_insert_L. set_solver.
Qed.

Lemma assign_outputs (l : list (string * BuildResult)) m :
  map_Forall (fun _ result => is_Some (outputFiles result)) m ->
  Forall (fun entry => is_Some (outputFiles (snd entry))) l ->
  map_Forall (fun _ result => is_Some (outputFiles result))
    (fold_left Build.assign l m).
Proof.
  intros Hm Hl. revert m Hm.
  induction Hl as [|[key result] l Hr _ IH]; intros m Hm; simpl; [done |].
  apply IH. unfold Build.assign. by apply map_Forall_insert_2.
Qed.

End BuildFacts.

(** X13: [buildFunctions] writes nothing to the disk.  It fails when
    [listFunctions] fails.  When it succeeds, the build record has exactly
    the keys <name>.cjs of the listed functions, index.cjs, and init.cjs
    when an init path is configured, and each value carries its output
    files in memory. *)
Theorem buildFunctions_record (h : Host) (readFile : string -> promise string)
    (compile : Compiler) (buildConfig : FiremynaBuildConfig) (disk : Disk) :
  let outcome := Build.buildFunctions h readFile compile buildConfig disk in
  snd outcome = disk /\
  (forall e, listFunctions h buildConfig = Rejected e ->
     fst outcome = Rejected e) /\
  (forall build, fst outcome = Fulfilled build ->
     exists fns, listFunctions h buildConfig = Fulfilled fns /\
       dom build = Build.files buildConfig fns /\
       forall key result, build !! key = Some result ->
         is_Some (outputFiles result)).
Proof.
  unfold Build.buildFunctions.
  destruct (listFunctions h buildConfig) as [fns|e]; simpl;
    [| by repeat split; [intros ? [= <-] |]].
  set (tasks := _ ++ _).
  assert (Forall2 taskOk tasks
            (map (fun fn => [fn_name fn +:+ ".cjs"]) fns ++
             [["index.cjs"];
              if truthyPath (functionsInitPath (config buildConfig))
              then ["init.cjs"] else []])) as Hall.
  { apply Forall2_app.
    - apply Forall2_fmap, Forall_Forall2_diag, Forall_forall.
      intros fn _. apply BuildFacts.functionTask_ok.
    - constructor; [apply BuildFacts.indexTask_ok |].
      constructor; [apply BuildFacts.initTask_ok | constructor]. }
  destruct (BuildFacts.startAll_entries tasks _ disk Hall) as [Hd He].
  destruct (Build.startAll tasks disk) as [settled d']. simpl in *. subst d'.
  repeat split; [done |]. intros build.
  destruct (Promise_all settled) as [entries|e]; simpl; [| done].
  intros [= <-]. destruct (He entries eq_refl) as [Hk Hr].
  exists fns. repeat split.
  - rewrite BuildFacts.dom_assign, Hk, concat_app. unfold Build.files.
    assert (concat (map (fun fn => [fn_name fn +:+ ".cjs"]) fns) =
            map (fun fn => fn_name fn +:+ ".cjs") fns) as ->.
    { clear. induction fns as [|fn fns IH]; simpl; [done | by rewrite IH]. }
    simpl. destruct (truthyPath _); set_solver.
  - intros key result.
    by apply (BuildFacts.assign_outputs _ ∅ (map_Forall_empty _) Hr).
Qed.

(** The one-shot build of the sample project ([hello.ts] and
    [greet/index.ts], no init module) succeeds with three entries. *)
Example buildFunctions_sample :
  match fst (Build.buildFunctions Sample.host1 Sample2.readFile
               Sample.compileOk Sample.buildConfig0 ∅) with
  | Fulfilled build =>
      map (fun key => bool_decide (is_Some (build !! key)))
        ["hello.cjs"; "greet.cjs"; "index.cjs"; "init.cjs"]
  | Rejected _ => []
  end = [true; true; true; false].
Proof. vm_compute. reflexivity. Qed.

(** ** The registry and the classifier on the same file *)

Module AgreeFacts.
Import RegExpFacts PathFacts RelativeFacts.

Lemma resolveLoop_relatives l rest acc :
  Forall (fun p => Str.truthy p = true /\ Path.isAbsolute p = false) l ->
  Path.resolveLoop (rev l ++ rest) acc =
  Path.resolveLoop rest (fold_right (fun p a => p +:+ "/" +:+ a) acc l).
Proof.
  revert acc. induction l as [|x l IH] using rev_ind; intros acc Hl; [done |].
  apply Forall_app in Hl as [Hl [[Ht Ha] _]%Forall_cons].
  rewrite rev_unit, fold_right_app. simpl. rewrite Ht, Ha. simpl.
  by apply IH.
Qed.

Lemma chain_clean parts :
  Forall (fun names => Forall isName names /\ names <> []) parts ->
  let chain :=
    fold_right (fun p a => p +:+ "/" +:+ a) "" (map (Str.join "/") parts) in
  isClean chain /\ Path.segments chain = concat parts.
Proof.
  induction 1 as [|names parts [Hn Hne] _ [IHc IHs]]; simpl in *.
  - split; [apply isClean_nil | done].
  - split.
    + apply isClean_app; [by apply isClean_join | done].
    + by rewrite segments_app, segments_join, IHs.
Qed.

(** [path.resolve] of an absolute directory followed by relative paths, all
    made of names. *)
Lemma resolve_parts pcwd absNames parts :
  Forall isName absNames ->
  Forall (fun names => Forall isName names /\ names <> []) parts ->
  Path.resolve pcwd (("/" +:+ Str.join "/" absNames) :: map (Str.join "/") parts)
  = "/" +:+ Str.join "/" (absNames ++ concat parts).
Proof.
  intros Ha Hp. unfold Path.resolve.
  change (rev (pcwd :: ("/" +:+ Str.join "/" absNames) ::
               map (Str.join "/") parts))
    with ((rev (map (Str.join "/") parts) ++
           ["/" +:+ Str.join "/" absNames]) ++ [pcwd]).
  rewrite <- app_assoc, resolveLoop_relatives.
  - destruct (chain_clean parts Hp) as [Hc Hs]. simpl in *.
    rewrite normalizeString_clean.
    + by rewrite segments_slash, segments_app, segments_join, Hs.
    + by apply isClean_slash, isClean_app; [apply isClean_join |].
  - apply Forall_fmap. eapply Forall_impl; [exact Hp |].
    intros names [Hn Hne]. simpl.
    assert (Forall isSegment names) as Hs.
    { eapply Forall_impl; [exact Hn |]. by intros s [? _]. }
    by rewrite join_truthy, join_relative.
Qed.

Lemma rsplit_app_nosep sep s t :
  Str.all (fun c => negb (Ascii.eqb c sep)) t = true ->
  Str.rsplit sep (s +:+ t) =
  match Str.rsplit sep s with
  | Some (a, b) => Some (a, b +:+ t)
  | None => None
  end.
Proof.
  intros Ht. induction s as [|c s IH]; simpl.
  - by apply rsplit_none.
  - rewrite IH. destruct (Str.rsplit sep s) as [[a b]|]; [done |].
    by destruct (Ascii.eqb c sep).
Qed.

Lemma rsplit_all p sep s a b :
  Str.rsplit sep s = Some (a, b) -> Str.all p s = true -> Str.all p b = true.
Proof.
  revert a. induction s as [|c s IH]; intros a; simpl; [done |].
  intros E [_ Hs]%andb_true_iff.
  destruct (Str.rsplit sep s) as [[x y]|].
  - injection E as <- <-. by apply (IH x).
  - destruct (Ascii.eqb c sep); by simplify_eq.
Qed.

Lemma indexFile_name base : base ∈ indexFileNames -> isName base.
Proof.
  unfold indexFileNames. intros H.
  repeat (apply elem_of_cons in H as [-> | H]; [by repeat split |]).
  by apply elem_of_nil in H.
Qed.

Lemma extension_no_slash ext :
  ext ∈ scriptExtensions -> Str.no_slash ext = true.
Proof.
  unfold scriptExtensions. intros H.
  repeat (apply elem_of_cons in H as [-> | H]; [done |]).
  by apply elem_of_nil in H.
Qed.

Lemma stem_extension stem ext :
  stem <> "" -> ext ∈ scriptExtensions -> stem +:+ ext ∉ scriptExtensions.
Proof.
  unfold scriptExtensions. intros Hne He Hin.
  destruct stem as [|c stem]; [done |].
  repeat (apply elem_of_cons in He as [-> | He]);
    [| | | | by apply elem_of_nil in He];
    repeat (apply elem_of_cons in Hin as [E | Hin]);
    try (by apply elem_of_nil in Hin);
    simpl in E; injection E as -> E;
    repeat (destruct stem as [|? stem]; simpl in E; [discriminate |];
            injection E as -> E); by destruct stem.
Qed.

Ltac names :=
  repeat match goal with
         | |- Forall _ [] => apply Forall_nil_2
         | |- Forall _ (_ :: _) => apply Forall_cons_2
         | |- Forall _ (_ ++ _) => apply Forall_app_2
         | |- _ /\ _ <> [] => split
         end; try done.

Section Layout.

Variable h : Host.
Variable buildConfig : FiremynaBuildConfig.
Variables cwdNames srcNames : list string.
Hypothesis Hcwd : Forall isName cwdNames.
Hypothesis Hsrc : Forall isName srcNames.
Hypothesis Hsrc_ne : srcNames <> [].
Hypothesis Hpcwd : process_cwd h = "/" +:+ Str.join "/" cwdNames.
Hypothesis Hproject : cwd buildConfig = process_cwd h.
Hypothesis Hroot : paths_functions_src buildConfig = Str.join "/" srcNames.

Lemma sourceRoot_names :
  sourceRoot h buildConfig = "/" +:+ Str.join "/" (cwdNames ++ srcNames).
Proof.
  unfold sourceRoot. rewrite Hproject, Hroot, Hpcwd.
  rewrite (resolve_parts _ cwdNames [srcNames]) by names.
  simpl. by rewrite app_nil_r.
Qed.

Lemma fullPath_names item :
  isName item ->
  Path.resolve (process_cwd h)
    [cwd buildConfig; paths_functions_src buildConfig; item] =
  "/" +:+ Str.join "/" (cwdNames ++ srcNames ++ [item]).
Proof.
  intros Hi. rewrite Hproject, Hroot, Hpcwd.
  by rewrite (resolve_parts _ cwdNames [srcNames; [item]]) by names.
Qed.

(** [parseFunction] on a path written relative to the project directory. *)
Lemma parseFunction_below names name :
  Forall isName names -> names <> [] ->
  flatFunction names name \/ indexFunction names name ->
  parseFunction h buildConfig (Str.join "/" (srcNames ++ names)) =
  Some (mkFunction (Str.join "/" (srcNames ++ names)) name).
Proof.
  intros Hn Hne Hshape.
  pose proof (underSourceRoot_relative h buildConfig cwdNames srcNames names
                Hcwd Hsrc Hn Hne Hpcwd sourceRoot_names) as Hunder.
  apply (parseFunction_name h buildConfig _ _ Hunder name) in Hshape.
  destruct (parseFunction h buildConfig _) as [[p n]|] eqn:E; [| done].
  injection Hshape as ->.
  apply parseFunction_path in E. simpl in E. subst p. f_equal. f_equal.
  rewrite Hpcwd.
  pose proof (relative_below_relative cwdNames [] (srcNames ++ names)) as Hr.
  rewrite app_nil_r in Hr. apply Hr; try done; [by apply Forall_app_2 |].
  by destruct srcNames.
Qed.

Lemma parseFunction_below_None names :
  Forall isName names -> names <> [] ->
  (forall name, ~ (flatFunction names name \/ indexFunction names name)) ->
  parseFunction h buildConfig (Str.join "/" (srcNames ++ names)) = None.
Proof.
  intros Hn Hne Hshape.
  pose proof (underSourceRoot_relative h buildConfig cwdNames srcNames names
                Hcwd Hsrc Hn Hne Hpcwd sourceRoot_names) as Hunder.
  destruct (parseFunction h buildConfig _) as [[p n]|] eqn:E; [| done].
  destruct (Hshape n).
  apply (parseFunction_name h buildConfig _ _ Hunder n). by rewrite E.
Qed.

End Layout.

End AgreeFacts.

Local Arguments RegExp.test : simpl never.

(** X14: when firemyna runs in the project directory, [parseFunction]
    applied to the path of a function [listFunctions] made from the
    directory entry [item] gives: for a directory, the function named after
    the whole entry (while [listFunctions] cuts the entry at its last dot);
    for a file, the very same function, except that a file whose whole name
    is an extension (such as .ts) is listed but not recognised. *)
Theorem listed_function_parses (h : Host) (buildConfig : FiremynaBuildConfig)
    (cwdNames srcNames : list string) (item : string) (isDir : bool)
    (fn : FiremynaFunction) :
  Forall isName cwdNames -> Forall isName srcNames -> srcNames <> [] ->
  isName item ->
  process_cwd h = "/" +:+ Str.join "/" cwdNames ->
  cwd buildConfig = process_cwd h ->
  paths_functions_src buildConfig = Str.join "/" srcNames ->
  stat_isDirectory h
    (Path.resolve (process_cwd h)
       [cwd buildConfig; paths_functions_src buildConfig; item])
    = Fulfilled isDir ->
  listFunctionsItem h buildConfig item = Fulfilled (Some fn) ->
  parseFunction h buildConfig (fn_path fn) =
    if isDir then Some (mkFunction (fn_path fn) item)
    else if bool_decide (item ∈ scriptExtensions) then None
    else Some fn.
Proof.
  intros Hcwd Hsrc Hne Hitem Hpcwd Hproject Hroot Hstat.
  pose proof (AgreeFacts.fullPath_names h buildConfig cwdNames srcNames
                Hcwd Hsrc Hne Hpcwd Hproject Hroot item Hitem) as Hfull.
  unfold listFunctionsItem, findFunctionPath.
  rewrite Hstat. rewrite Hfull in *. simpl.
  assert (forall names, Forall isName names -> names <> [] ->
            Path.relative (process_cwd h) (cwd buildConfig)
              (String "/" (Str.join "/" (cwdNames ++ srcNames ++ names))) =
            Str.join "/" (srcNames ++ names)) as Hrel.
  { intros names Hn Hnn. rewrite Hproject, Hpcwd.
    apply (RelativeFacts.relative_below _ cwdNames (srcNames ++ names));
      [done | by apply Forall_app_2 |].
    by destruct srcNames. }
  destruct isDir.
  - (* a directory holding an index file *)
    destruct (readdir h _) as [files|e]; simpl; [| done].
    destruct (List.find _ files) as [indexFile|] eqn:Hfind; simpl; [| done].
    apply find_some in Hfind as [_ Hindex%RegExpFacts.test_indexRegExp].
    pose proof (AgreeFacts.indexFile_name _ Hindex) as Hname.
    rewrite (AgreeFacts.resolve_parts _ (cwdNames ++ srcNames ++ [item])
               [[indexFile]])
      by AgreeFacts.names.
    simpl. rewrite <- !app_assoc. simpl.
        rewrite (Hrel [item; indexFile]) by AgreeFacts.names.
    destruct (Str.truthy _); simpl; [| done].
    destruct (includedFunction buildConfig _); [| done].
    intros [= <-]. simpl.
    apply (AgreeFacts.parseFunction_below h buildConfig cwdNames srcNames);
      try done; [AgreeFacts.names |].
    right. by exists indexFile.
  - (* a file *)
        destruct (RegExp.test fnRegExp _) eqn:Htest; simpl; [| done].
    apply RegExpFacts.test_fnRegExp in Htest
      as (stem & ext & Estem & Hstem & Hlt & Hext).
    assert (Str.rsplit "/"
              (String "/" (Str.join "/" (cwdNames ++ srcNames ++ [item])))
            = Some (String "/" (Str.join "/" (cwdNames ++ srcNames)), item))
      as Hsplit.
    { rewrite app_assoc, PathFacts.join_snoc by (by destruct cwdNames, srcNames).
      change (String "/" (Str.join "/" (cwdNames ++ srcNames) +:+ "/" +:+ item))
        with (String "/" (Str.join "/" (cwdNames ++ srcNames))
              +:+ String "/" item).
      rewrite PathFacts.rsplit_app_sep, PathFacts.rsplit_none; [done |].
      apply Hitem. }
    rewrite Estem, AgreeFacts.rsplit_app_nosep in Hsplit
      by (by apply AgreeFacts.extension_no_slash).
    destruct (Str.rsplit "/" stem) as [[a b]|] eqn:Hb; [| done].
    injection Hsplit as _ <-.
    pose proof (AgreeFacts.rsplit_all _ _ _ _ _ Hb Hlt) as Hblt.
    rewrite (Hrel [b +:+ ext]) by AgreeFacts.names.
    destruct (Str.truthy _); simpl; [| done].
    destruct (includedFunction buildConfig _); [| done].
    intros [= <-]. simpl.
    destruct (decide (b = "")) as [-> | Hbne].
    + rewrite bool_decide_eq_true_2 by done.
      apply (AgreeFacts.parseFunction_below_None h buildConfig cwdNames srcNames);
        try done; [AgreeFacts.names |].
      intros name [(ext' & [= E] & He' & Hn' & _) | (base & [=] & _)].
      simpl in E. apply (AgreeFacts.stem_extension name ext'); [done.. |].
      by rewrite <- E.
    + rewrite bool_decide_eq_false_2
        by (by apply AgreeFacts.stem_extension).
      pose proof (PathFacts.parse_join [] (b +:+ ext) (List.Forall_nil _)
                    (proj1 Hitem)) as Hparse.
      simpl in Hparse. rewrite Hparse. simpl.
      rewrite PathFacts.splitExt_script by done. simpl.
      apply (AgreeFacts.parseFunction_below h buildConfig cwdNames srcNames);
        try done; [AgreeFacts.names |].
      left. by exists ext.
Qed.

Lemma listed_function_parses_witness :
  parseFunction Sample.host0 Sample.buildConfig0 (fn_path Sample.hello) =
  Some Sample.hello.
Proof.
  apply (listed_function_parses Sample.host0 Sample.buildConfig0
           ["proj"] ["functions"] "hello.ts" false Sample.hello);
    try reflexivity; try done; AgreeFacts.names.
Defined.

(** ** The dependency watcher's callback *)

(** X15: the callback given to [watchDeps] looks its file up among the
    function builds only and stores nothing: it leaves the build units, the
    init build, the function set, the released handles and the children
    alone; for a file with no function build (such as init.cjs, which is
    kept apart from the function builds) it compiles nothing, tells the
    dependency watcher nothing and calls [writeEsbuildFile] with
    [undefined]. *)
Theorem onDepsChange_function_units_only (compile : Compiler) (Deps : Type)
    (onBuild : string -> Metafile -> Deps -> Deps)
    (writeEsbuildFile : option BuildResult -> Disk -> promise unit * Disk)
    (file : string) (st : Dev.DevState Deps) :
  let outcome := Dev.onDepsChange compile Deps onBuild writeEsbuildFile file st in
  (Dev.builds Deps (snd outcome) = Dev.builds Deps st /\
   Dev.initBuild Deps (snd outcome) = Dev.initBuild Deps st /\
   Dev.functions Deps (snd outcome) = Dev.functions Deps st /\
   Dev.disposed Deps (snd outcome) = Dev.disposed Deps st /\
   Dev.launched Deps (snd outcome) = Dev.launched Deps st) /\
  (Dev.builds Deps st !! file = None ->
   outcome = Dev.withDisk Deps (writeEsbuildFile None) st).
Proof.
  unfold Dev.onDepsChange, Dev.get, Dev.rebuildOf, Dev.noteBuild,
    Dev.withDisk, Dev.withDeps, Dev.ret, Dev.bind.
  simpl.
  destruct (Dev.builds Deps st !! file) as [b|] eqn:Hb; simpl.
  - split; [| done].
    destruct (rebuild b) as [options|]; simpl; [| done].
    destruct (esbuild_build compile options (Dev.disk Deps st)) as [[r|e] d];
      simpl; [| done].
    destruct (metafile r); simpl; by destruct (writeEsbuildFile _ _).
  - split; [| done].
    by destruct (writeEsbuildFile None (Dev.disk Deps st)).
Qed.

(** ** Spellings of the init path *)

Module NormalizeFacts.
Import RegExpFacts StrFacts PathFacts RelativeFacts.

Lemma split_no_slash p :
  Forall (fun s => Str.no_slash s = true) (Str.split "/" p).
Proof.
  induction p as [|c p IH]; simpl; [by repeat constructor |].
  destruct (Ascii.eqb c "/") eqn:Ec; [by constructor |].
  pose proof (split_nonempty "/" p) as Hne.
  destruct (Str.split "/" p) as [|x l]; [done |].
  apply Forall_cons in IH as [Hx Hl]. constructor; [| done].
  unfold Str.no_slash, Str.is_slash in *. simpl. by rewrite Ec.
Qed.

Lemma kept_step allow acc seg :
  Str.no_slash seg = true -> keptSegments allow acc ->
  keptSegments allow (Path.normalizeStep allow acc seg).
Proof.
  intros Hs (names & k & -> & Hn & Hk). unfold Path.normalizeStep.
  destruct (String.eqb_spec seg ""); [by exists names, k |].
  destruct (String.eqb_spec seg "."); [by exists names, k |]. simpl.
  destruct (String.eqb_spec seg "..").
  - destruct names as [|x names]; simpl.
    + destruct k as [|k]; simpl.
      * destruct allow; [by exists [], 1 | by exists [], 0].
      * destruct allow; [by exists [], (S (S k)) | by exists [], (S k)].
    + apply Forall_cons in Hn as [(_ & _ & Hx) Hn].
      destruct (String.eqb_spec x ".."); [done |]. by exists names, k.
  - exists (seg :: names), k. repeat split; try done.
    constructor; [by repeat split | done].
Qed.

Lemma kept_fold allow l acc :
  Forall (fun s => Str.no_slash s = true) l -> keptSegments allow acc ->
  keptSegments allow (fold_left (Path.normalizeStep allow) l acc).
Proof.
  intros Hl. revert acc. induction Hl as [|s l Hs _ IH]; intros acc Ha; [done |].
  simpl. by apply IH, kept_step.
Qed.

Lemma fold_climb k j :
  fold_left (Path.normalizeStep true) (repeat ".." k) (repeat ".." j) =
  repeat ".." (k + j).
Proof.
  revert j. induction k as [|k IH]; intros j; [done |]. simpl.
  replace (Path.normalizeStep true (repeat ".." j) "..")
    with (repeat ".." (S j)) by (by destruct j).
  rewrite IH. by replace (k + S j) with (S (k + j)) by lia.
Qed.

(** Normalizing the kept segments again, between empty segments, keeps
    them all. *)
Lemma fold_kept allow acc pre post :
  keptSegments allow acc -> Forall (fun s => s = "") pre ->
  Forall (fun s => s = "") post ->
  fold_left (Path.normalizeStep allow) (pre ++ rev acc ++ post) [] = acc.
Proof.
  intros (names & k & -> & Hn & Hk) Hpre Hpost.
  rewrite rev_app_distr, !fold_left_app.
  rewrite (fold_clean allow pre)
    by (eapply Forall_impl; [exact Hpre | by left]).
  assert (filter (fun s => s <> "") pre = []) as ->.
  { clear -Hpre. induction Hpre as [|s l -> _ IH]; [done |].
    by rewrite filter_cons_False by (by intros ?). }
  assert (filter (fun s => s <> "") post = []) as Epost.
  { clear -Hpost. induction Hpost as [|s l -> _ IH]; [done |].
    by rewrite filter_cons_False by (by intros ?). }
  simpl.
  assert (rev (repeat ".." k) = repeat ".." k) as ->.
  { clear. induction k as [|k IH]; [done |]. simpl. rewrite IH.
    by rewrite <- repeat_cons. }
  assert (fold_left (Path.normalizeStep allow) (repeat ".." k) [] =
          repeat ".." k) as ->.
  { destruct allow.
    - etrans; [exact (fold_climb k 0) | by rewrite Nat.add_0_r].
    - by rewrite Hk. }
  rewrite <- fold_left_app.
  rewrite fold_clean.
  - rewrite filter_app, Epost, app_nil_r.
    rewrite filter_nonempty_names by (by apply Forall_rev).
    by rewrite rev_involutive.
  - apply Forall_app_2.
    + apply Forall_rev. eapply Forall_impl; [exact Hn | by right].
    + eapply Forall_impl; [exact Hpost | by left].
Qed.

Lemma kept_segments allow acc : keptSegments allow acc -> Forall isSegment (rev acc).
Proof.
  intros (names & k & -> & Hn & _). apply Forall_rev, Forall_app_2.
  - eapply Forall_impl; [exact Hn | by intros s [? _]].
  - clear. induction k; by constructor.
Qed.

Lemma normalize_render p :
  p <> "" ->
  exists acc,
    keptSegments (negb (Path.isAbsolute p)) acc /\
    Path.normalize p =
    renderKept (Path.isAbsolute p) (Str.last_is "/" p) (rev acc).
Proof.
  intros Hp.
  exists (fold_left (Path.normalizeStep (negb (Path.isAbsolute p)))
            (Str.split "/" p) []).
  split.
  - apply kept_fold; [apply split_no_slash |]. by exists [], 0.
  - unfold Path.normalize, renderKept, Path.normalizeString. by destruct p.
Qed.

Lemma isAbsolute_app s t :
  s <> "" -> Path.isAbsolute (s +:+ t) = Path.isAbsolute s.
Proof. by destruct s. Qed.

Lemma last_is_slash s : Str.last_is "/" (s +:+ "/") = true.
Proof.
  unfold Str.last_is.
  change (s +:+ "/") with (s +:+ String "/" "").
  by rewrite rsplit_app_sep.
Qed.

Lemma last_is_join l :
  Forall isSegment l -> l <> [] -> Str.last_is "/" (Str.join "/" l) = false.
Proof.
  intros Hl Hne. destruct l as [|b l _] using rev_ind; [done |].
  apply Forall_app in Hl as [Hl Hb%Forall_inv].
  unfold Str.last_is. rewrite rsplit_join by done.
  destruct Hb as [Hb _]. destruct l; [done | by destruct b].
Qed.

Lemma last_is_cons c s : s <> "" -> Str.last_is "/" (String c s) = Str.last_is "/" s.
Proof.
  intros Hs. unfold Str.last_is. simpl.
  destruct (Str.rsplit "/" s) as [[a b]|]; [done |].
  destruct (Ascii.eqb c "/"); [by destruct s | done].
Qed.

Lemma normalize_kept r isAbs trailingSeparator acc pre post :
  r <> "" -> Path.isAbsolute r = isAbs ->
  Str.last_is "/" r = trailingSeparator ->
  Str.split "/" r = pre ++ rev acc ++ post ->
  Forall (fun s => s = "") pre -> Forall (fun s => s = "") post ->
  keptSegments (negb isAbs) acc ->
  Path.normalize r = renderKept isAbs trailingSeparator (rev acc).
Proof.
  intros Hr Habs Hlast Hsplit Hpre Hpost Hk.
  unfold Path.normalize, Path.normalizeString, renderKept.
  rewrite Habs, Hlast, Hsplit, fold_kept by done. by destruct r.
Qed.

Lemma render_normal isAbs trailingSeparator acc :
  keptSegments (negb isAbs) acc ->
  Path.normalize (renderKept isAbs trailingSeparator (rev acc)) =
  renderKept isAbs trailingSeparator (rev acc).
Proof.
  intros Hk. pose proof (kept_segments _ _ Hk) as Hseg.
  destruct (decide (acc = [])) as [-> | Hne].
  { by destruct isAbs, trailingSeparator. }
  assert (rev acc <> []) as Hrne.
  { intros E. apply Hne. by rewrite <- (rev_involutive acc), E. }
  pose proof (join_truthy _ Hseg Hrne) as Ht.
  pose proof (join_relative _ Hseg) as Hrel.
  assert (Str.join "/" (rev acc) <> "") as Hjne by (by destruct (Str.join _ _)).
  assert (Str.split "/" (Str.join "/" (rev acc)) = rev acc) as Hsplit.
  { apply (split_join "/"); [done |].
    eapply Forall_impl; [exact Hseg | by intros s [_ ?]]. }
  unfold renderKept at 1. rewrite Ht. simpl negb. cbv iota zeta.
  set (body := if trailingSeparator then Str.join "/" (rev acc) +:+ "/"
               else Str.join "/" (rev acc)).
  assert (body <> "") as Hbody.
  { unfold body. destruct trailingSeparator; [| done].
    by intros [? _]%append_eq_nil. }
  assert (Path.isAbsolute body = false) as Hbrel.
  { unfold body. destruct trailingSeparator; [| done].
    by rewrite isAbsolute_app. }
  assert (Str.last_is "/" body = trailingSeparator) as Hblast.
  { unfold body. destruct trailingSeparator;
      [apply last_is_slash | by apply last_is_join]. }
  assert (exists post, Forall (fun s => s = "") post /\
            Str.split "/" body = rev acc ++ post) as (post & Hpost & Hbsplit).
  { unfold body. destruct trailingSeparator.
    - exists [""]. split; [by repeat constructor |].
      change (Str.join "/" (rev acc) +:+ "/")
        with (Str.join "/" (rev acc) +:+ String "/" "").
      by rewrite split_app, Hsplit.
    - exists []. split; [done |]. by rewrite app_nil_r. }
  destruct isAbs.
  - apply (normalize_kept _ _ _ _ [""] post); try done.
    + change ("/" +:+ body) with (String "/" body). by rewrite last_is_cons.
    + change (Str.split "/" ("/" +:+ body)) with ("" :: Str.split "/" body).
      by rewrite Hbsplit.
    + by repeat constructor.
  - by apply (normalize_kept _ _ _ _ [] post).
Qed.

Lemma render_truthy isAbs trailingSeparator l :
  Str.truthy (renderKept isAbs trailingSeparator l) = true.
Proof.
  unfold renderKept. destruct (Str.join "/" l) as [|c s]; simpl.
  - by destruct isAbs, trailingSeparator.
  - by destruct isAbs, trailingSeparator.
Qed.

Lemma normalize_idempotent p :
  Path.normalize (Path.normalize p) = Path.normalize p.
Proof.
  destruct (decide (p = "")) as [-> | Hp]; [done |].
  destruct (normalize_render p Hp) as (acc & Hk & ->).
  by apply render_normal.
Qed.

Lemma normalize_truthy p : Str.truthy (Path.normalize p) = true.
Proof.
  destruct (decide (p = "")) as [-> | Hp]; [done |].
  destruct (normalize_render p Hp) as (acc & Hk & ->).
  apply render_truthy.
Qed.

End NormalizeFacts.

(** X16: the init module is recognised whatever the spelling of the two
    paths: [isInitPath] gives the same answer for a path and for its
    normal form, and for a configured init path and its normal form. *)
Theorem isInitPath_spelling (init path : string) :
  init <> "" ->
  isInitPath (Some init) (Path.normalize path) = isInitPath (Some init) path /\
  isInitPath (Some (Path.normalize init)) path = isInitPath (Some init) path.
Proof.
  intros Hinit. unfold isInitPath.
  rewrite !NormalizeFacts.normalize_idempotent.
  rewrite NormalizeFacts.normalize_truthy. by destruct init.
Qed.

Lemma isInitPath_spelling_witness :
  isInitPath (Some "./functions//init.ts") (Path.normalize "functions/lib/../init.ts")
    = isInitPath (Some "./functions//init.ts") "functions/lib/../init.ts" /\
  isInitPath (Some (Path.normalize "./functions//init.ts"))
    "functions/lib/../init.ts" =
  isInitPath (Some "./functions//init.ts") "functions/lib/../init.ts".
Proof. by apply (isInitPath_spelling "./functions//init.ts"). Defined.

(** ** Output files *)

Module OutfileFacts.

Lemma append_inv_r a b s : a +:+ s = b +:+ s -> a = b.
Proof.
  revert b. induction a as [|c a IH]; intros [|d b] E; simpl in E.
  - done.
  - apply (f_equal String.length) in E. simpl in E.
    rewrite LogFacts.length_append in E. lia.
  - apply (f_equal String.length) in E. simpl in E.
    rewrite LogFacts.length_append in E. lia.
  - injection E as -> E. f_equal. by apply IH.
Qed.

Lemma cjs_name name : Str.no_slash name = true -> isName (name +:+ ".cjs").
Proof.
  intros Hs. repeat split.
  - by intros [_ ?]%RegExpFacts.append_eq_nil.
  - unfold Str.no_slash in *. by rewrite IndexFacts.all_app, Hs.
  - destruct name as [|? [|? ?]]; simpl; congruence.
  - destruct name as [|? [|? [|? ?]]]; simpl; congruence.
Qed.

End OutfileFacts.

(** X17: with an absolute project directory, the output file of the
    function named [name] is <name>.cjs directly in the build directory of
    the functions, so two functions with different names never share an
    output file. *)
Theorem function_outfiles (h : Host) (buildConfig : FiremynaBuildConfig)
    (cwdNames buildNames : list string) :
  Forall isName cwdNames -> Forall isName buildNames -> buildNames <> [] ->
  cwd buildConfig = "/" +:+ Str.join "/" cwdNames ->
  paths_functions_build buildConfig = Str.join "/" buildNames ->
  let outfile name :=
    getBuildFunctionsFilePath h buildConfig (name +:+ ".cjs") in
  (forall name, Str.no_slash name = true ->
     outfile name =
     "/" +:+ Str.join "/" (cwdNames ++ buildNames ++ [name +:+ ".cjs"])) /\
  (forall name1 name2,
     Str.no_slash name1 = true -> Str.no_slash name2 = true ->
     outfile name1 = outfile name2 -> name1 = name2).
Proof.
  intros Hcwd Hbuild Hne Ecwd Ebuild outfile.
  assert (forall name, Str.no_slash name = true ->
            outfile name =
            "/" +:+ Str.join "/" (cwdNames ++ buildNames ++ [name +:+ ".cjs"]))
    as Hout.
  { intros name Hn. unfold outfile, getBuildFunctionsFilePath.
    rewrite Ecwd, Ebuild.
    pose proof (OutfileFacts.cjs_name name Hn) as Hname.
    by rewrite (AgreeFacts.resolve_parts _ cwdNames
                  [buildNames; [name +:+ ".cjs"]]) by AgreeFacts.names. }
  split; [done |]. intros name1 name2 H1 H2. rewrite !Hout by done.
  pose proof (OutfileFacts.cjs_name name1 H1) as Hn1.
  pose proof (OutfileFacts.cjs_name name2 H2) as Hn2.
  intros E%RelativeFacts.absolute_inj; [| AgreeFacts.names..].
  apply app_inv_head, app_inv_head in E. injection E as E.
  by apply OutfileFacts.append_inv_r in E.
Qed.

Lemma function_outfiles_witness :
  getBuildFunctionsFilePath Sample.host0 Sample.buildConfig0 ("hello" +:+ ".cjs")
  = "/proj/build/functions/hello.cjs".
Proof.
  refine (proj1 (function_outfiles Sample.host0 Sample.buildConfig0
                   ["proj"] ["build"; "functions"] _ _ _ eq_refl eq_refl)
            "hello" eq_refl);
    AgreeFacts.names.
Defined.
